(** * ADOA: anomaly detection with partially observed anomalies

    A shallow embedding of [Test-other-method-kmeans/adoa.py] (class [ADOA])
    and the properties of its score fusion, threshold derivation and
    weighted training-set construction.

    Numbers.  numpy works on IEEE doubles; here a finite score is an exact
    rational ([Q]), and the non-finite values numpy produces without raising
    (nan from the mean of an empty slice or 0/0, inf from x/0) are kept apart
    in [np_float].  Rounding is not modelled there: a statement about the
    rational model is a statement about the program only where rounding
    cannot change it.  Where rounding does decide (the upper end of
    minmax_scale, [alpha * 0.9] on the smallest doubles), module [Double]
    evaluates the same expression on binary64 floats.

    External capabilities (the isolation forest, [np.exp], the standard
    scaler, [get_cluster_centers], the classifier) are Section variables.
    The [print] calls of determine_trainset write to standard output only
    and are left out. *)

From Stdlib Require Import QArith ZArith List Bool Lia Lqa.
From Stdlib Require Import Qround Floats.
Import ListNotations.

Open Scope Q_scope.

(** ** Exceptions and results *)

Inductive exn : Type :=
| ValueError        (* numpy / scikit-learn argument checks *)
| AssertionError    (* the [assert] of determine_trainset *)
| IndexError        (* an index outside an array *)
| NonFiniteScore    (* a nan score, outside the rational score model *)
| ExternalError.    (* any failure raised inside an external capability *)

Inductive result (A : Type) : Type :=
| Ok (a : A)
| Raise (e : exn).
Arguments Ok {A} a.
Arguments Raise {A} e.

Definition rbind {A B} (r : result A) (k : A -> result B) : result B :=
  match r with
  | Ok a => k a
  | Raise e => Raise e
  end.

Fixpoint mapM {A B} (f : A -> result B) (l : list A) : result (list B) :=
  match l with
  | [] => Ok []
  | x :: xs => rbind (f x) (fun y => rbind (mapM f xs) (fun ys => Ok (y :: ys)))
  end.

(** ** numpy floats that need not be finite *)

Inductive np_float : Type :=
| Fin (q : Q)
| NaN
| PInf
| NInf.

Definition Qltb (x y : Q) : bool := negb (Qle_bool y x).

(** [x < y] on floats: every comparison with nan is false. *)
Definition np_lt (x y : np_float) : bool :=
  match x, y with
  | Fin a, Fin b => Qltb a b
  | Fin _, PInf => true
  | NInf, Fin _ => true
  | NInf, PInf => true
  | _, _ => false
  end.

(** [x <= y] on floats. *)
Definition np_le (x y : np_float) : bool :=
  match x, y with
  | Fin a, Fin b => Qle_bool a b
  | Fin _, PInf => true
  | NInf, Fin _ => true
  | NInf, PInf => true
  | PInf, PInf => true
  | NInf, NInf => true
  | _, _ => false
  end.

Definition np_ge (x y : np_float) : bool := np_le y x.

(** True division of two finite floats: 0/0 is nan and x/0 is a signed
    infinity (numpy warns, it does not raise). *)
Definition np_divide (x y : Q) : np_float :=
  if Qeq_bool y 0 then
    if Qeq_bool x 0 then NaN else if Qltb 0 x then PInf else NInf
  else Fin (x / y).

(** [x * g] for a finite [x] and any float [g]: a product with nan is nan,
    and a product with an infinity is a signed infinity, or nan for [x = 0]. *)
Definition np_mul (x : Q) (g : np_float) : np_float :=
  match g with
  | Fin y => Fin (x * y)
  | NaN => NaN
  | PInf => if Qeq_bool x 0 then NaN else if Qltb 0 x then PInf else NInf
  | NInf => if Qeq_bool x 0 then NaN else if Qltb 0 x then NInf else PInf
  end.

(** [x * 0.9]. *)
Definition np_times_09 (x : np_float) : np_float :=
  match x with
  | Fin a => Fin (a * (9 # 10))
  | other => other
  end.

(** A weight (or any float) lies in the closed unit interval. *)
Definition in_unit (x : np_float) : Prop :=
  match x with
  | Fin q => 0 <= q /\ q <= 1
  | _ => False
  end.

(** ** numpy reductions over a one-dimensional array of finite floats *)

Definition Qminb (x y : Q) : Q := if Qle_bool x y then x else y.
Definition Qmaxb (x y : Q) : Q := if Qle_bool x y then y else x.

(** [np.min]: raises ValueError on a zero-size array. *)
Definition np_min (a : list Q) : result Q :=
  match a with
  | [] => Raise ValueError
  | x :: xs => Ok (fold_left Qminb xs x)
  end.

(** [np.max]: raises ValueError on a zero-size array. *)
Definition np_max (a : list Q) : result Q :=
  match a with
  | [] => Raise ValueError
  | x :: xs => Ok (fold_left Qmaxb xs x)
  end.

Definition Qsum (a : list Q) : Q := fold_right Qplus 0 a.

Definition Qlen {A} (a : list A) : Q := inject_Z (Z.of_nat (length a)).

(** [np.mean]: nan on an empty slice. *)
Definition np_mean (a : list Q) : np_float :=
  match a with
  | [] => NaN
  | _ => Fin (Qsum a / Qlen a)
  end.

Fixpoint insert_sorted (x : Q) (l : list Q) : list Q :=
  match l with
  | [] => [x]
  | y :: ys => if Qle_bool x y then x :: l else y :: insert_sorted x ys
  end.

Definition np_sort (a : list Q) : list Q := fold_right insert_sorted [] a.

(** [np.median]: the middle element, or the mean of the two middle elements;
    nan on an empty array. *)
Definition np_median (a : list Q) : np_float :=
  match a with
  | [] => NaN
  | _ =>
      let s := np_sort a in
      let n := length s in
      if Nat.even n
      then Fin ((nth (n / 2 - 1) s 0 + nth (n / 2) s 0) / 2)
      else Fin (nth (n / 2) s 0)
  end.

(** [np.percentile(a, q)] with the default linear interpolation: the value at
    the virtual index [(n-1) * q / 100] of the sorted array.  A percentile
    outside [0, 100] raises ValueError; an empty array gives nan (numpy 1.x;
    numpy 2.x raises IndexError there), a case determine_trainset never
    reaches, since np.min has raised on the empty array before. *)
Definition np_percentile (a : list Q) (q : Z) : result np_float :=
  if ((q <? 0) || (100 <? q))%Z then Raise ValueError
  else
    match a with
    | [] => Ok NaN
    | _ =>
        let s := np_sort a in
        let n := length s in
        let v := inject_Z (Z.of_nat (n - 1)) * inject_Z q / 100 in
        let lo := Z.to_nat (Qfloor v) in
        let hi := Nat.min (S lo) (n - 1) in
        let frac := v - inject_Z (Qfloor v) in
        Ok (Fin (nth lo s 0 + (nth hi s 0 - nth lo s 0) * frac))
    end.

(** [sklearn.preprocessing.minmax_scale] on a one-dimensional array:
    [x * scale_ + min_] with [scale_ = 1 / range] and [min_ = - data_min *
    scale_]; a zero range is replaced by 1, and an empty array is rejected. *)
Definition minmax_scale (a : list Q) : result (list Q) :=
  rbind (np_min a) (fun data_min =>
  rbind (np_max a) (fun data_max =>
    let data_range := data_max - data_min in
    let scale_ := 1 / (if Qeq_bool data_range 0 then 1 else data_range) in
    let min_ := 0 - data_min * scale_ in
    Ok (map (fun x => x * scale_ + min_) a))).

(** A linear rescaling of an array by its own extremes: [x * scale_ + min_]
    with [scale_ = 1 / (max - min)], a zero range replaced by 1, and [min_ =
    0 - min * scale_]. *)
Definition rescaled_by_extremes (a s : list Q) : Prop :=
  exists mn mx,
    In mn a /\ In mx a /\ (forall x, In x a -> mn <= x /\ x <= mx) /\
    let scale_ := 1 / (if Qeq_bool (mx - mn) 0 then 1 else mx - mn) in
    s = map (fun x => x * scale_ + (0 - mn * scale_)) a.

(** ** The same arithmetic in binary64 *)

Module Double.

Definition fmin (x y : float) : float := if PrimFloat.leb x y then x else y.
Definition fmax (x y : float) : float := if PrimFloat.leb x y then y else x.

(** [sklearn.preprocessing.minmax_scale] on doubles: the expression of
    [minmax_scale] above, each operation rounded. *)
Definition minmax_scale (a : list float) : result (list float) :=
  match a with
  | [] => Raise ValueError
  | x :: xs =>
      let data_min := fold_left fmin xs x in
      let data_max := fold_left fmax xs x in
      let data_range := PrimFloat.sub data_max data_min in
      let scale_ :=
        PrimFloat.div 1%float
          (if PrimFloat.eqb data_range 0%float then 1%float else data_range) in
      let min_ := PrimFloat.sub 0%float (PrimFloat.mul data_min scale_) in
      Ok (map (fun x => PrimFloat.add (PrimFloat.mul x scale_) min_) a)
  end.

(** [alpha * 0.9] of line 104 on doubles; the literal is the double that
    Python reads [0.9] as. *)
Definition times_09 (a : float) : float :=
  PrimFloat.mul a 0x1.ccccccccccccdp-1%float.

End Double.

(** ** Data model *)

(** A sample: one row of a numpy matrix. *)
Definition row := list Q.

(** The ['auto'] sentinel or a float. *)
Inductive threshold : Type :=
| Auto
| Val (x : np_float).

Inductive n_clusters_t : Type :=
| AutoClusters
| NClusters (k : Z).

Inductive cluster_algo_t : Type :=
| kmeans
| spectral
| birch
| dbscan.

(** The fields of an [ADOA] instance.  [classifer] is a reference to the
    caller's classifier object, which lives in the heap. *)
Record ADOA : Type := mkADOA {
  anomalies : list row;
  unlabel : list row;
  contamination : Q;
  classifer : nat;
  n_clusters : n_clusters_t;
  cluster_algo : cluster_algo_t;
  theta : Q;
  alpha : threshold;
  beta : threshold;
  return_proba : bool;
  random_state : Z;
  percent : Z;
  gailv : np_float;
  centers : list row;
  cluster_score : Q
}.

(** [self.alpha = a] *)
Definition set_alpha (self : ADOA) (a : threshold) : ADOA :=
  mkADOA (anomalies self) (unlabel self) (contamination self) (classifer self)
         (n_clusters self) (cluster_algo self) (theta self) a (beta self)
         (return_proba self) (random_state self) (percent self) (gailv self)
         (centers self) (cluster_score self).

(** [self.beta = b] *)
Definition set_beta (self : ADOA) (b : threshold) : ADOA :=
  mkADOA (anomalies self) (unlabel self) (contamination self) (classifer self)
         (n_clusters self) (cluster_algo self) (theta self) (alpha self) b
         (return_proba self) (random_state self) (percent self) (gailv self)
         (centers self) (cluster_score self).

(** ** Array helpers *)

(** An argument of the constructor as numpy reads it: a one-dimensional
    array (a flat list of numbers, the empty list included) or a
    two-dimensional array of [ncols] columns, every row of that width. *)
Inductive array_like : Type :=
| Array1 (xs : list Q)
| Array2 (ncols : nat) (rows : list row).

(** [len(a)] *)
Definition np_len (a : array_like) : nat :=
  match a with
  | Array1 xs => length xs
  | Array2 _ rows => length rows
  end.

(** [np.r_[a, b]]: concatenation along the first axis.  Arrays that differ in
    the number of dimensions or in the number of columns raise ValueError. *)
Definition np_r_ (a b : array_like) : result array_like :=
  match a, b with
  | Array1 xs, Array1 ys => Ok (Array1 (xs ++ ys))
  | Array2 d1 r1, Array2 d2 r2 =>
      if Nat.eqb d1 d2 then Ok (Array2 d1 (r1 ++ r2)) else Raise ValueError
  | _, _ => Raise ValueError
  end.

(** [a - b] on one-dimensional arrays, with numpy broadcasting of a
    length-one operand; other shape mismatches raise ValueError. *)
Definition np_sub (a b : row) : result row :=
  if Nat.eqb (length a) (length b)
  then Ok (map (fun p => fst p - snd p) (combine a b))
  else match a, b with
       | [x], _ => Ok (map (fun y => x - y) b)
       | _, [y] => Ok (map (fun x => x - y) a)
       | _, _ => Raise ValueError
       end.

(** [np.square(arr - center).sum()] *)
Definition sq_dist (arr center : row) : result Q :=
  rbind (np_sub arr center) (fun d => Ok (Qsum (map (fun x => x * x) d))).

(** [l[m]] for a boolean mask [m] of the length of [l]. *)
Fixpoint mask_select {A} (l : list A) (m : list bool) : list A :=
  match l, m with
  | x :: xs, b :: bs => if b then x :: mask_select xs bs else mask_select xs bs
  | _, _ => []
  end.

(** Elementwise [theta * a + (1 - theta) * b] on arrays of one length. *)
Fixpoint fuse (th : Q) (a b : list Q) : list Q :=
  match a, b with
  | x :: xs, y :: ys => (th * x + (1 - th) * y) :: fuse th xs ys
  | _, _ => []
  end.

Definition count {A} (p : A -> bool) (l : list A) : nat := length (filter p l).

(** ** The relaxation loop of determine_trainset

    The loop state is the pair of [self.beta] and the local [percent].
    [OutOfBudget] is not a Python outcome: it marks an exhausted recursion
    budget, which [relax_loop] never reaches. *)

Inductive loop_exit : Type :=
| CondFalse             (* the condition [beta >= alpha] became false *)
| Fallback              (* [break] after [beta = alpha * 0.9] *)
| Raised (e : exn)      (* np.percentile raised *)
| OutOfBudget.

Record loop_result : Type := mkLoop {
  lr_beta : np_float;
  lr_percent : Z;
  lr_exit : loop_exit
}.

Fixpoint relax (fuel : nat) (weighted_score : list Q) (alpha_ beta_ : np_float)
  (percent_ : Z) : loop_result :=
  match fuel with
  | O => mkLoop beta_ percent_ OutOfBudget
  | S fuel' =>
      if np_ge beta_ alpha_ then
        let percent' := (percent_ - 5)%Z in
        if (percent' =? 0)%Z then mkLoop (np_times_09 alpha_) percent' Fallback
        else
          match np_percentile weighted_score percent' with
          | Raise e => mkLoop beta_ percent' (Raised e)
          | Ok b => relax fuel' weighted_score alpha_ b percent'
          end
      else mkLoop beta_ percent_ CondFalse
  end.

(** A call of np.percentile succeeds only for percentiles 0..100, so the body
    runs at most 21 times. *)
Definition relax_loop (weighted_score : list Q) (alpha_ beta_ : np_float)
  (percent_ : Z) : loop_result :=
  relax 21 weighted_score alpha_ beta_ percent_.

(** [((np.mean(anomalies_score) + min_score) / 2) * gailv] *)
Definition alpha_auto (anomalies_score : list Q) (min_score : Q)
  (gailv_ : np_float) : np_float :=
  match np_mean anomalies_score with
  | Fin m => np_mul ((m + min_score) / 2) gailv_
  | _ => NaN
  end.

(** Lines 98-99: the value assigned to [self.alpha] and the value first
    assigned to [self.beta]. *)
Definition resolve_alpha (self : ADOA) (anomalies_score : list Q) (min_score : Q)
  : np_float :=
  match alpha self with
  | Auto => alpha_auto anomalies_score min_score (gailv self)
  | Val a => a
  end.

Definition initial_beta (weighted_score : list Q) (median_score alpha_ : np_float)
  (percent_ : Z) : result np_float :=
  if np_lt median_score alpha_ then Ok median_score
  else np_percentile weighted_score percent_.

(** ** The estimator *)

Section Estimator.

(** [np.exp] on finite floats. *)
Variable np_exp : Q -> Q.

(** [IsolationForest(n_estimators=100, contamination, random_state,
    n_jobs=-1).fit(dataset)]: the fitted forest, or the library's failure.
    [decision_function] scores every row against the fitted forest. *)
Context {Forest : Type}.
Variable iforest_fit : Q -> Z -> list row -> result Forest.
Variable decision : Forest -> row -> Q.

(** [StandardScaler().fit_transform]. *)
Variable fit_transform : list row -> result (list row).

(** [cluster_centers.get_cluster_centers], which is not part of this file:
    the cluster centers and the clustering-quality score. *)
Variable get_cluster_centers :
  list row -> n_clusters_t -> cluster_algo_t -> result (list row * Q).

(** The classifier capability: [fit] with sample weights updates the
    classifier object; [predict] and [predict_proba] read it. *)
Context {Clf : Type}.
Variable clf_fit : Clf -> list row -> list Z -> list np_float -> result Clf.
Variable clf_predict : Clf -> list row -> result (list Z).
Variable clf_predict_proba : Clf -> list row -> result (list (list Q)).

(** The arguments of [ADOA.__init__]. *)
Record init_args : Type := mkArgs {
  arg_anomalies : array_like;
  arg_unlabel : array_like;
  arg_classifer : nat;
  arg_cluster_algo : cluster_algo_t;
  arg_n_clusters : n_clusters_t;
  arg_contamination : Q;
  arg_theta : Q;
  arg_alpha : threshold;
  arg_beta : threshold;
  arg_return_proba : bool;
  arg_random_state : Z;
  arg_percent : Z;
  arg_gailv : np_float
}.

(** [ADOA.__init__].  [np.r_[anomalies, unlabel]] is evaluated first; the
    scaler, which wants a two-dimensional array, raises ValueError on a
    one-dimensional one. *)
Definition init (a : init_args) : result ADOA :=
  rbind (np_r_ (arg_anomalies a) (arg_unlabel a)) (fun joint =>
  match joint with
  | Array1 _ => Raise ValueError
  | Array2 _ dataset =>
  rbind (fit_transform dataset) (fun dataset_scaled =>
    let anomalies_ := firstn (np_len (arg_anomalies a)) dataset_scaled in
    let unlabel_ := skipn (np_len (arg_anomalies a)) dataset_scaled in
    rbind (get_cluster_centers anomalies_ (arg_n_clusters a) (arg_cluster_algo a))
      (fun cs =>
         Ok (mkADOA anomalies_ unlabel_ (arg_contamination a) (arg_classifer a)
               (arg_n_clusters a) (arg_cluster_algo a) (arg_theta a)
               (arg_alpha a) (arg_beta a) (arg_return_proba a)
               (arg_random_state a) (arg_percent a) (arg_gailv a)
               (fst cs) (snd cs))))
  end).

(** The inner function of cal_weighted_score.  With no feature the quotient
    [-min_dist / len(arr)] is 0/0 = nan. *)
Definition cal_similarity_score (centers_ : list row) (arr : row) : result Q :=
  rbind (mapM (sq_dist arr) centers_) (fun dists =>
  rbind (np_min dists) (fun min_dist =>
    if Nat.eqb (length arr) 0 then Raise NonFiniteScore
    else Ok (np_exp (- min_dist / Qlen arr)))).

(** [ADOA.cal_weighted_score] *)
Definition cal_weighted_score (self : ADOA) : result (list Q) :=
  let dataset := anomalies self ++ unlabel self in
  rbind (iforest_fit (contamination self) (random_state self) dataset) (fun iforest =>
    let isolation_score := map (fun x => - decision iforest x) dataset in
    rbind (minmax_scale isolation_score) (fun isolation_score_scaled =>
    rbind (mapM (cal_similarity_score (centers self)) dataset) (fun similarity_score =>
    rbind (minmax_scale similarity_score) (fun similarity_score_scaled =>
      Ok (fuse (theta self) isolation_score_scaled similarity_score_scaled))))).

(** The value returned by determine_trainset. *)
Definition trainset : Type := (list row * list Z * list np_float)%type.

(** Lines 110-126, for thresholds [alpha_] and [beta_]. *)
Definition build_trainset (self : ADOA) (weighted_score : list Q)
  (min_score max_score : Q) (alpha_ beta_ : np_float) : trainset :=
  let unlabel_scores := skipn (length (anomalies self)) weighted_score in
  let rlb_bool := map (fun s => np_le (Fin s) beta_) unlabel_scores in
  let ptt_bool := map (fun s => np_ge (Fin s) alpha_) unlabel_scores in
  let ptt_normal := mask_select (unlabel self) ptt_bool in
  let rlb_anomalies := mask_select (unlabel self) rlb_bool in
  let rlb_anomalies_score := mask_select unlabel_scores rlb_bool in
  let ptt_normal_score := mask_select unlabel_scores ptt_bool in
  let rlb_anomalies_weight :=
    map (fun s => np_divide (max_score - s) (max_score - min_score)) rlb_anomalies_score in
  let ptt_normal_weight := map (fun s => np_divide s max_score) ptt_normal_score in
  let normal_weight := repeat (Fin 1) (length (anomalies self)) in
  let normal_label := repeat 1%Z (length (anomalies self)) in
  let X_train := anomalies self ++ ptt_normal ++ rlb_anomalies in
  let weights := normal_weight ++ ptt_normal_weight ++ rlb_anomalies_weight in
  let y_train := normal_label ++ repeat 1%Z (length ptt_normal)
                   ++ repeat 0%Z (length rlb_anomalies) in
  (X_train, y_train, weights).

(** [ADOA.determine_trainset]: the instance after the call (with the
    assignments to [self.alpha] and [self.beta] made before any exception)
    and the returned triple or the exception.  The [OutOfBudget] branch is
    dead code: [relax_loop_terminates] shows the loop never leaves that way. *)
Definition determine_trainset (self : ADOA) : ADOA * result trainset :=
  match cal_weighted_score self with
  | Raise e => (self, Raise e)
  | Ok weighted_score =>
  match np_min weighted_score with
  | Raise e => (self, Raise e)
  | Ok min_score =>
  match np_max weighted_score with
  | Raise e => (self, Raise e)
  | Ok max_score =>
      let median_score := np_median weighted_score in
      let anomalies_score := firstn (length (anomalies self)) weighted_score in
      let alpha_ := resolve_alpha self anomalies_score min_score in
      let self1 := set_alpha self (Val alpha_) in
      match initial_beta weighted_score median_score alpha_ (percent self) with
      | Raise e => (self1, Raise e)
      | Ok beta0 =>
          let lr := relax_loop weighted_score alpha_ beta0 (percent self) in
          let self2 := set_beta self1 (Val (lr_beta lr)) in
          match lr_exit lr with
          | Raised e => (self2, Raise e)
          | OutOfBudget => (self2, Raise ExternalError)
          | _ =>
              if np_lt (lr_beta lr) alpha_
              then (self2, Ok (build_trainset self weighted_score min_score
                                 max_score alpha_ (lr_beta lr)))
              else (self2, Raise AssertionError)
          end
      end
  end end end.

(** The heap of classifier objects, addressed by the [classifer] field. *)
Definition heap : Type := nat -> Clf.

Definition heap_set (h : heap) (r : nat) (c : Clf) : heap :=
  fun r' => if Nat.eqb r' r then c else h r'.

Inductive prediction : Type :=
| Labels (y_pred : list Z)
| LabelsProba (y_pred : list Z) (y_prob : list Q).

(** [P[:, 1]] *)
Definition column_1 (P : list (list Q)) : result (list Q) :=
  mapM (fun r => match nth_error r 1 with
                 | Some x => Ok x
                 | None => Raise IndexError
                 end) P.

(** [ADOA.predict] *)
Definition predict (self : ADOA) (h : heap) : ADOA * heap * result prediction :=
  match determine_trainset self with
  | (self', Raise e) => (self', h, Raise e)
  | (self', Ok (X_train, y_train, weights)) =>
      let clf := h (classifer self') in
      match clf_fit clf X_train y_train weights with
      | Raise e => (self', h, Raise e)
      | Ok clf' =>
          let h' := heap_set h (classifer self') clf' in
          match clf_predict clf' (unlabel self') with
          | Raise e => (self', h', Raise e)
          | Ok y_pred =>
              if return_proba self' then
                match rbind (clf_predict_proba clf' (unlabel self')) column_1 with
                | Raise e => (self', h', Raise e)
                | Ok y_prob => (self', h', Ok (LabelsProba y_pred y_prob))
                end
              else (self', h', Ok (Labels y_pred))
          end
      end
  end.

(** The values that [ADOA.__repr__] formats into its three lines. *)
Record summary : Type := mkSummary {
  n_centers : nat;
  quality : Q;
  rll_num : Z;
  rll_share : np_float;
  ptt_num : Z;
  ptt_share : np_float
}.

(** [ADOA.__repr__] *)
Definition repr (self : ADOA) : ADOA * result summary :=
  match determine_trainset self with
  | (self', Raise e) => (self', Raise e)
  | (self', Ok (_, y_train, _)) =>
      let rll := Z.of_nat (count (Z.eqb 0) y_train) in
      let ptt := (fold_right Z.add 0 y_train - Z.of_nat (length (anomalies self')))%Z in
      (self', Ok (mkSummary (length (centers self)) (cluster_score self)
                    rll (np_divide (inject_Z rll) (Qlen (unlabel self')))
                    ptt (np_divide (inject_Z ptt) (Qlen (unlabel self')))))
  end.

(** The operations of an instance, run on the instance and the heap. *)
Inductive operation : Type :=
| OpDetermineTrainset
| OpPredict
| OpRepr.

Definition run (o : operation) (w : ADOA * heap) : ADOA * heap :=
  match o with
  | OpDetermineTrainset => (fst (determine_trainset (fst w)), snd w)
  | OpPredict => fst (predict (fst w) (snd w))
  | OpRepr => (fst (repr (fst w)), snd w)
  end.

Definition run_all (ops : list operation) (w : ADOA * heap) : ADOA * heap :=
  fold_left (fun w o => run o w) ops w.

End Estimator.

(** ** Concrete capabilities and instances used to evaluate the code *)

Module Sample.

(** A rational stand-in for [np.exp] on non-positive arguments: exact at 0,
    positive and increasing. *)
Definition exp_rat (q : Q) : Q := 1 / (1 - q + q * q / 2).

(** A forest is fitted on any non-empty dataset; an empty one is rejected
    by the library's input check. *)
Definition fit_any (c : Q) (seed : Z) (dataset : list row) : result unit :=
  match dataset with
  | [] => Raise ValueError
  | _ => Ok tt
  end.

(** A decision function that is lower the farther a row is from the origin. *)
Definition decision_origin (f : unit) (x : row) : Q :=
  1 / (1 + Qsum (map (fun v => v * v) x)) - (1 # 2).

(** A scaler for data that is standardized already. *)
Definition scaler_id (dataset : list row) : result (list row) :=
  match dataset with
  | [] => Raise ValueError
  | _ => Ok dataset
  end.

(** A clustering that finds the given centers. *)
Definition centers_const (cs : list row) (score : Q)
  (a : list row) (n : n_clusters_t) (algo : cluster_algo_t) : result (list row * Q) :=
  match a with
  | [] => Raise ValueError
  | _ => Ok (cs, score)
  end.

(** A classifier that predicts the normal class for every row. *)
Definition fit_const (c : unit) (X : list row) (y : list Z) (w : list np_float)
  : result unit := Ok tt.
Definition predict_const (c : unit) (X : list row) : result (list Z) :=
  Ok (map (fun _ => 0%Z) X).
Definition proba_const (c : unit) (X : list row) : result (list (list Q)) :=
  Ok (map (fun _ => [1; 0]) X).

Definition dt : ADOA -> ADOA * result trainset :=
  determine_trainset exp_rat fit_any decision_origin.

Definition score : ADOA -> result (list Q) :=
  cal_weighted_score exp_rat fit_any decision_origin.

(** One anomaly and three unlabeled rows in one dimension, isolation scores
    only ([theta = 1]), thresholds given by the caller. *)
Definition manual (a b : threshold) : ADOA :=
  mkADOA [[3]] [[0]; [1]; [2]] (1 # 100) 0%nat (NClusters 1) kmeans
         1 a b false 2018 45 (Fin 1) [[3]] 0.

(** Every row equals the single cluster center: all scores coincide. *)
Definition all_equal (a : threshold) : ADOA :=
  mkADOA [[0]] [[0]; [0]] (1 # 100) 0%nat (NClusters 1) kmeans
         (85 # 100) a Auto false 2018 45 (Fin 1) [[0]] 0.

End Sample.


(** ** Comparisons *)

Lemma Qltb_lt (x y : Q) : Qltb x y = true <-> x < y.
Proof.
  unfold Qltb. rewrite negb_true_iff.
  split; intro H.
  - apply Qnot_le_lt. intro Hle. apply Qle_bool_iff in Hle. congruence.
  - destruct (Qle_bool y x) eqn:E; [|reflexivity].
    apply Qle_bool_iff in E. exfalso. apply (Qlt_not_le _ _ H E).
Qed.

Lemma Qle_bool_false (x y : Q) : Qle_bool x y = false <-> y < x.
Proof.
  rewrite <- Qltb_lt. unfold Qltb. now rewrite negb_true_iff.
Qed.


(** On finite floats the failure of [x >= y] is [x < y]. *)
Lemma np_ge_false_fin (x y : Q) : np_ge (Fin x) (Fin y) = false -> np_lt (Fin x) (Fin y) = true.
Proof.
  unfold np_ge. simpl. intro H. apply Qltb_lt. now apply Qle_bool_false.
Qed.

(** ** np.percentile *)

Lemma np_percentile_ok_range (a : list Q) (q : Z) (b : np_float) :
  np_percentile a q = Ok b -> (0 <= q <= 100)%Z.
Proof.
  unfold np_percentile.
  destruct ((q <? 0) || (100 <? q))%Z eqn:E; [discriminate|].
  intros _. apply orb_false_iff in E. destruct E as [E1 E2].
  apply Z.ltb_ge in E1. apply Z.ltb_ge in E2. lia.
Qed.

Lemma np_percentile_raise (a : list Q) (q : Z) (e : exn) :
  np_percentile a q = Raise e -> e = ValueError /\ (q < 0 \/ 100 < q)%Z.
Proof.
  unfold np_percentile.
  destruct ((q <? 0) || (100 <? q))%Z eqn:E.
  - intro H. inversion H. split; [reflexivity|].
    apply orb_true_iff in E. destruct E as [E|E]; apply Z.ltb_lt in E; lia.
  - destruct a; discriminate.
Qed.

(** A percentile of a non-empty array, taken in range, is a finite float. *)
Lemma np_percentile_fin (a : list Q) (q : Z) :
  a <> [] -> (0 <= q <= 100)%Z -> exists v, np_percentile a q = Ok (Fin v).
Proof.
  intros Ha Hq. unfold np_percentile.
  destruct ((q <? 0) || (100 <? q))%Z eqn:E.
  - apply orb_true_iff in E. destruct E as [E|E]; apply Z.ltb_lt in E; lia.
  - destruct a; [congruence|]. eexists. reflexivity.
Qed.

Lemma np_median_fin (a : list Q) : a <> [] -> exists v, np_median a = Fin v.
Proof.
  intro Ha. unfold np_median. destruct a; [congruence|].
  destruct (Nat.even _); eexists; reflexivity.
Qed.

(** ** np.min and np.max *)

Lemma Qminb_spec (x z : Q) :
  (Qminb x z = x \/ Qminb x z = z) /\ Qminb x z <= x /\ Qminb x z <= z.
Proof.
  unfold Qminb. destruct (Qle_bool x z) eqn:E.
  - apply Qle_bool_iff in E. split; [now left|]. split; [apply Qle_refl|exact E].
  - apply Qle_bool_false in E. split; [now right|].
    split; [now apply Qlt_le_weak|apply Qle_refl].
Qed.

Lemma Qmaxb_spec (x z : Q) :
  (Qmaxb x z = x \/ Qmaxb x z = z) /\ x <= Qmaxb x z /\ z <= Qmaxb x z.
Proof.
  unfold Qmaxb. destruct (Qle_bool x z) eqn:E.
  - apply Qle_bool_iff in E. split; [now right|]. split; [exact E|apply Qle_refl].
  - apply Qle_bool_false in E. split; [now left|].
    split; [apply Qle_refl|now apply Qlt_le_weak].
Qed.

Lemma fold_min_spec (xs : list Q) :
  forall x,
    (fold_left Qminb xs x = x \/ In (fold_left Qminb xs x) xs) /\
    fold_left Qminb xs x <= x /\
    (forall y, In y xs -> fold_left Qminb xs x <= y).
Proof.
  induction xs as [|z xs IH]; intro x; simpl.
  - split; [now left|]. split; [apply Qle_refl|tauto].
  - destruct (IH (Qminb x z)) as [Hin [Hle Hall]].
    destruct (Qminb_spec x z) as [Hm [Hx Hz]].
    split; [|split].
    + destruct Hin as [Hin|Hin]; [|now right; right].
      rewrite Hin. destruct Hm as [Hm|Hm]; [now left|right; now left].
    + eapply Qle_trans; eassumption.
    + intros y [<-|Hy]; [|now apply Hall].
      eapply Qle_trans; eassumption.
Qed.

Lemma fold_max_spec (xs : list Q) :
  forall x,
    (fold_left Qmaxb xs x = x \/ In (fold_left Qmaxb xs x) xs) /\
    x <= fold_left Qmaxb xs x /\
    (forall y, In y xs -> y <= fold_left Qmaxb xs x).
Proof.
  induction xs as [|z xs IH]; intro x; simpl.
  - split; [now left|]. split; [apply Qle_refl|tauto].
  - destruct (IH (Qmaxb x z)) as [Hin [Hle Hall]].
    destruct (Qmaxb_spec x z) as [Hm [Hx Hz]].
    split; [|split].
    + destruct Hin as [Hin|Hin]; [|now right; right].
      rewrite Hin. destruct Hm as [Hm|Hm]; [now left|right; now left].
    + eapply Qle_trans; eassumption.
    + intros y [<-|Hy]; [|now apply Hall].
      eapply Qle_trans; eassumption.
Qed.

(** [np.min] returns the least element of the array. *)
Lemma np_min_spec (a : list Q) (m : Q) :
  np_min a = Ok m -> In m a /\ forall y, In y a -> m <= y.
Proof.
  destruct a as [|x xs]; [discriminate|]. simpl. intro H. inversion H as [Hm].
  destruct (fold_min_spec xs x) as [Hin [Hle Hall]].
  split.
  - destruct Hin as [->|Hin]; [now left|now right].
  - intros y [<-|Hy]; [exact Hle|now apply Hall].
Qed.

(** [np.max] returns the greatest element of the array. *)
Lemma np_max_spec (a : list Q) (m : Q) :
  np_max a = Ok m -> In m a /\ forall y, In y a -> y <= m.
Proof.
  destruct a as [|x xs]; [discriminate|]. simpl. intro H. inversion H as [Hm].
  destruct (fold_max_spec xs x) as [Hin [Hle Hall]].
  split.
  - destruct Hin as [->|Hin]; [now left|now right].
  - intros y [<-|Hy]; [exact Hle|now apply Hall].
Qed.

Lemma np_min_ok (a : list Q) : a <> [] -> exists m, np_min a = Ok m.
Proof. destruct a; [congruence|]. intros _. eexists. reflexivity. Qed.

Lemma np_max_ok (a : list Q) : a <> [] -> exists m, np_max a = Ok m.
Proof. destruct a; [congruence|]. intros _. eexists. reflexivity. Qed.

(** *** Bounds of the median and the percentiles *)

Lemma In_insert_sorted (x y : Q) (l : list Q) :
  In x (insert_sorted y l) -> x = y \/ In x l.
Proof.
  induction l as [|z l IH]; simpl.
  - intros [H|[]]. now left.
  - destruct (Qle_bool y z); simpl.
    + intros [H|H]; auto.
    + intros [H|H]; auto. destruct (IH H); auto.
Qed.

Lemma In_np_sort (x : Q) (a : list Q) : In x (np_sort a) -> In x a.
Proof.
  unfold np_sort. induction a as [|y a IH]; simpl; [tauto|].
  intro H. apply In_insert_sorted in H. destruct H; auto.
Qed.

Lemma length_insert_sorted (y : Q) (l : list Q) :
  length (insert_sorted y l) = S (length l).
Proof.
  induction l as [|z l IH]; simpl; [reflexivity|].
  destruct (Qle_bool y z); simpl; [reflexivity|now rewrite IH].
Qed.

Lemma length_np_sort (a : list Q) : length (np_sort a) = length a.
Proof.
  unfold np_sort. induction a as [|y a IH]; simpl; [reflexivity|].
  now rewrite length_insert_sorted, IH.
Qed.

(** An element of the sorted array, by position, is an element of the array. *)
Lemma nth_np_sort_In (a : list Q) (i : nat) :
  (i < length a)%nat -> In (nth i (np_sort a) 0) a.
Proof.
  intro H. apply In_np_sort. apply nth_In. now rewrite length_np_sort.
Qed.

(** np.median of a non-empty array lies between its bounds. *)
Lemma np_median_between (a : list Q) (lo hi : Q) :
  a <> [] -> (forall x, In x a -> lo <= x /\ x <= hi) ->
  exists v, np_median a = Fin v /\ lo <= v /\ v <= hi.
Proof.
  intros Hne Hb. unfold np_median.
  destruct a as [|x0 a0] eqn:Ea; [congruence|]. rewrite <- Ea in *.
  assert (Hn : (0 < length a)%nat) by (rewrite Ea; simpl; lia).
  cbv zeta. rewrite length_np_sort.
  assert (H2 : (length a / 2 < length a)%nat) by (apply Nat.div_lt; lia).
  assert (H1 : (length a / 2 - 1 < length a)%nat) by lia.
  pose proof (Hb _ (nth_np_sort_In a _ H2)) as [L2 U2].
  pose proof (Hb _ (nth_np_sort_In a _ H1)) as [L1 U1].
  destruct (Nat.even (length a)); eexists; (split; [reflexivity|]).
  - split.
    + apply Qle_shift_div_l; lra.
    + apply Qle_shift_div_r; lra.
  - split; assumption.
Qed.

(** np.percentile of a non-empty array lies between its bounds. *)
Lemma np_percentile_between (a : list Q) (q : Z) (b : np_float) (lo hi : Q) :
  a <> [] -> (forall x, In x a -> lo <= x /\ x <= hi) ->
  np_percentile a q = Ok b ->
  exists v, b = Fin v /\ lo <= v /\ v <= hi.
Proof.
  intros Hne Hb H.
  pose proof (np_percentile_ok_range _ _ _ H) as Hq.
  unfold np_percentile in H.
  destruct ((q <? 0) || (100 <? q))%Z; [discriminate|].
  destruct a as [|x0 a0] eqn:Ea; [congruence|]. rewrite <- Ea in *.
  assert (Hn : (0 < length a)%nat) by (rewrite Ea; simpl; lia).
  cbv zeta in H. rewrite length_np_sort in H.
  set (v := inject_Z (Z.of_nat (length a - 1)) * inject_Z q / 100) in *.
  assert (Hv0 : 0 <= v).
  { unfold v. apply Qle_shift_div_l; [lra|].
    rewrite Qmult_0_l. apply Qmult_le_0_compat.
    - unfold Qle. simpl. lia.
    - unfold Qle. simpl. lia. }
  assert (Hv1 : v <= inject_Z (Z.of_nat (length a - 1))).
  { unfold v. apply Qle_shift_div_r; [lra|].
    assert (H0 : 0 <= inject_Z (Z.of_nat (length a - 1))) by (unfold Qle; simpl; lia).
    assert (H100 : inject_Z q <= 100) by (unfold Qle; simpl; lia).
    nra. }
  assert (Hf0 : (0 <= Qfloor v)%Z).
  { apply Qfloor_resp_le in Hv0. exact Hv0. }
  assert (Hf1 : (Qfloor v <= Z.of_nat (length a - 1))%Z).
  { apply Qfloor_resp_le in Hv1. rewrite Qfloor_Z in Hv1. exact Hv1. }
  assert (Hlo : (Z.to_nat (Qfloor v) < length a)%nat) by lia.
  assert (Hhi : (Nat.min (S (Z.to_nat (Qfloor v))) (length a - 1) < length a)%nat) by lia.
  pose proof (Hb _ (nth_np_sort_In a _ Hlo)) as [L1 U1].
  pose proof (Hb _ (nth_np_sort_In a _ Hhi)) as [L2 U2].
  pose proof (Qfloor_le v) as Hfl.
  pose proof (Qlt_floor v) as Hfu.
  rewrite inject_Z_plus in Hfu. change (inject_Z 1) with 1 in Hfu.
  set (x1 := nth (Z.to_nat (Qfloor v)) (np_sort a) 0) in *.
  set (x2 := nth (Nat.min (S (Z.to_nat (Qfloor v))) (length a - 1)) (np_sort a) 0) in *.
  set (fr := v - inject_Z (Qfloor v)) in *.
  injection H as Hbv. exists (x1 + (x2 - x1) * fr).
  split; [symmetry; exact Hbv|].
  assert (Hfr0 : 0 <= fr) by (unfold fr; lra).
  assert (Hfr1 : fr <= 1) by (unfold fr; lra).
  assert (P1 : 0 <= (x1 - lo) * (1 - fr)) by (apply Qmult_le_0_compat; lra).
  assert (P2 : 0 <= (x2 - lo) * fr) by (apply Qmult_le_0_compat; lra).
  assert (P3 : 0 <= (hi - x1) * (1 - fr)) by (apply Qmult_le_0_compat; lra).
  assert (P4 : 0 <= (hi - x2) * fr) by (apply Qmult_le_0_compat; lra).
  split; lra.
Qed.

(** ** The relaxation loop *)

Definition finite (x : np_float) : Prop := exists q, x = Fin q.

(** One round of the loop. *)
Lemma relax_S f ws a b p :
  relax (S f) ws a b p =
  if np_ge b a then
    if (p - 5 =? 0)%Z then mkLoop (np_times_09 a) (p - 5) Fallback
    else match np_percentile ws (p - 5) with
         | Raise e => mkLoop b (p - 5) (Raised e)
         | Ok b' => relax f ws a b' (p - 5)
         end
  else mkLoop b p CondFalse.
Proof. reflexivity. Qed.

Ltac loop_round :=
  rewrite relax_S;
  match goal with
  | |- context [np_ge ?b ?a] => destruct (np_ge b a) eqn:?Ege
  end;
  cbn [lr_exit lr_beta lr_percent];
  [ match goal with
    | |- context [(?q =? 0)%Z] => destruct (q =? 0)%Z eqn:?E0
    end;
    cbn [lr_exit lr_beta lr_percent];
    [ | match goal with
        | |- context [np_percentile ?ws ?q] =>
            destruct (np_percentile ws q) as [?b'|?e'] eqn:?Epc
        end;
        cbn [lr_exit lr_beta lr_percent] ]
  | ].

(** The recursion budget does not matter once it covers the percent. *)
Lemma relax_budget_indep (f1 : nat) :
  forall (f2 : nat) ws a b p,
    (1 <= f1)%nat -> (1 <= f2)%nat ->
    (p <= 5 * Z.of_nat f1)%Z -> (p <= 5 * Z.of_nat f2)%Z ->
    relax f1 ws a b p = relax f2 ws a b p.
Proof.
  induction f1 as [|f1 IH]; intros f2 ws a b p H1 H2 Hp1 Hp2; [lia|].
  destruct f2 as [|f2]; [lia|].
  rewrite !relax_S. destruct (np_ge b a); [|reflexivity].
  destruct (p - 5 =? 0)%Z eqn:E0; [reflexivity|].
  destruct (np_percentile ws (p - 5)) as [b'|e] eqn:E; [|reflexivity].
  apply np_percentile_ok_range in E. apply Z.eqb_neq in E0.
  apply IH; lia.
Qed.

(** The loop as the source writes it: one test of the condition, one
    decrement, the guard on 0, one percentile, and the loop again. *)
Lemma relax_loop_unfold ws a b p :
  relax_loop ws a b p =
  if np_ge b a then
    if (p - 5 =? 0)%Z then mkLoop (np_times_09 a) (p - 5) Fallback
    else match np_percentile ws (p - 5) with
         | Raise e => mkLoop b (p - 5) (Raised e)
         | Ok b' => relax_loop ws a b' (p - 5)
         end
  else mkLoop b p CondFalse.
Proof.
  unfold relax_loop. rewrite relax_S.
  destruct (np_ge b a); [|reflexivity].
  destruct (p - 5 =? 0)%Z eqn:E0; [reflexivity|].
  destruct (np_percentile ws (p - 5)) as [b'|e] eqn:E; [|reflexivity].
  apply np_percentile_ok_range in E.
  apply relax_budget_indep; lia.
Qed.

(** What each way of leaving the loop establishes. *)
Lemma relax_exit (f : nat) :
  forall ws a b p,
    match lr_exit (relax f ws a b p) with
    | CondFalse => np_ge (lr_beta (relax f ws a b p)) a = false
    | Fallback =>
        lr_beta (relax f ws a b p) = np_times_09 a /\
        lr_percent (relax f ws a b p) = 0%Z
    | Raised e =>
        e = ValueError /\
        (lr_percent (relax f ws a b p) < 0 \/ 100 < lr_percent (relax f ws a b p))%Z
    | OutOfBudget => True
    end.
Proof.
  induction f as [|f IH]; intros ws a b p; [exact I|].
  loop_round.
  - apply Z.eqb_eq in E0. auto.
  - apply IH.
  - now apply np_percentile_raise in Epc.
  - exact Ege.
Qed.


Lemma relax_in_budget (f : nat) :
  forall ws a b p,
    (1 <= f)%nat -> (p <= 5 * Z.of_nat f)%Z ->
    lr_exit (relax f ws a b p) <> OutOfBudget.
Proof.
  induction f as [|f IH]; intros ws a b p Hf Hp; [lia|].
  loop_round; try discriminate.
  apply np_percentile_ok_range in Epc. apply Z.eqb_neq in E0.
  apply IH; lia.
Qed.

(** The loop of determine_trainset always terminates. *)
Lemma relax_loop_terminates ws a b p : lr_exit (relax_loop ws a b p) <> OutOfBudget.
Proof.
  unfold relax_loop. loop_round; try discriminate.
  apply np_percentile_ok_range in Epc.
  apply relax_in_budget; lia.
Qed.



Lemma initial_beta_finite ws med a p b0 :
  ws <> [] -> finite med -> initial_beta ws med a p = Ok b0 -> finite b0.
Proof.
  unfold initial_beta. intros Hws Hmed.
  destruct (np_lt med a); intro H.
  - inversion H; subst. exact Hmed.
  - destruct (np_percentile_fin ws p Hws (np_percentile_ok_range _ _ _ H)) as [v Hv].
    exists v. congruence.
Qed.






(** ** minmax_scale *)

Definition unit01 (x : Q) : Prop := 0 <= x /\ x <= 1.

Lemma minmax_scale_length (a s : list Q) :
  minmax_scale a = Ok s -> length s = length a.
Proof.
  unfold minmax_scale.
  destruct (np_min a) as [mn|]; [|discriminate].
  destruct (np_max a) as [mx|]; [|discriminate].
  cbn [rbind]. intro H. inversion H. apply length_map.
Qed.

Lemma minmax_scale_ok (a : list Q) : a <> [] -> exists s, minmax_scale a = Ok s.
Proof.
  intro Ha. unfold minmax_scale.
  destruct (np_min_ok a Ha) as [mn ->]. destruct (np_max_ok a Ha) as [mx ->].
  eexists. reflexivity.
Qed.

Lemma minmax_scale_raise (a : list Q) (e : exn) :
  minmax_scale a = Raise e -> a = [] /\ e = ValueError.
Proof.
  destruct a as [|x xs]; [|discriminate].
  cbn. intro H. inversion H. auto.
Qed.

(** One rescaled component: 0 when the range is zero, otherwise
    [(x - min) / (max - min)]. *)
Lemma rescale_unit (mn mx x : Q) :
  mn <= x -> x <= mx ->
  unit01 (x * (1 / (if Qeq_bool (mx - mn) 0 then 1 else mx - mn))
          + (0 - mn * (1 / (if Qeq_bool (mx - mn) 0 then 1 else mx - mn)))).
Proof.
  intros Hlo Hhi. unfold unit01.
  destruct (Qeq_bool (mx - mn) 0) eqn:E.
  - apply Qeq_bool_iff in E.
    assert (Hx : x * (1 / 1) + (0 - mn * (1 / 1)) == x - mn) by field.
    rewrite Hx. lra.
  - apply Qeq_bool_neq in E.
    assert (Hr : 0 < mx - mn) by lra.
    assert (Hx : x * (1 / (mx - mn)) + (0 - mn * (1 / (mx - mn)))
                 == (x - mn) / (mx - mn)) by (field; lra).
    rewrite Hx. split.
    + apply Qle_shift_div_l; [exact Hr|lra].
    + apply Qle_shift_div_r; [exact Hr|lra].
Qed.

(** Every component of a min-max rescaled array lies in [0, 1]. *)
Lemma minmax_scale_unit (a s : list Q) :
  minmax_scale a = Ok s -> Forall unit01 s.
Proof.
  unfold minmax_scale.
  destruct (np_min a) as [mn|] eqn:Emin; [|discriminate].
  destruct (np_max a) as [mx|] eqn:Emax; [|discriminate].
  cbn [rbind]. intro H. inversion H as [Hs]. clear H Hs.
  apply np_min_spec in Emin. apply np_max_spec in Emax.
  apply Forall_forall. intros y Hy. apply in_map_iff in Hy.
  destruct Hy as [x [<- Hx]].
  apply rescale_unit; [apply Emin|apply Emax]; exact Hx.
Qed.

(** ** mapM and fuse *)

Lemma mapM_Forall2 {A B} (f : A -> result B) (l : list A) :
  forall ys, mapM f l = Ok ys -> Forall2 (fun x y => f x = Ok y) l ys.
Proof.
  induction l as [|x xs IH]; intros ys H; simpl in H.
  - inversion H. constructor.
  - destruct (f x) as [y|] eqn:Ex; [|discriminate]. cbn [rbind] in H.
    destruct (mapM f xs) as [ys'|] eqn:Exs; [|discriminate]. cbn [rbind] in H.
    inversion H. constructor; [exact Ex|now apply IH].
Qed.

Lemma mapM_length {A B} (f : A -> result B) (l : list A) (ys : list B) :
  mapM f l = Ok ys -> length ys = length l.
Proof.
  intro H. apply mapM_Forall2 in H. symmetry. eapply Forall2_length; eassumption.
Qed.


Lemma fuse_length (th : Q) (a : list Q) :
  forall b, length a = length b -> length (fuse th a b) = length a.
Proof.
  induction a as [|x xs IH]; intros [|y ys] H; simpl in *; try lia.
  rewrite IH; lia.
Qed.

Lemma fuse_nth (th : Q) (a : list Q) :
  forall b i, length a = length b -> (i < length a)%nat ->
    nth i (fuse th a b) 0 = th * nth i a 0 + (1 - th) * nth i b 0.
Proof.
  induction a as [|x xs IH]; intros [|y ys] i H Hi; simpl in *; try lia.
  destruct i as [|i]; [reflexivity|]. apply IH; lia.
Qed.

(** A convex combination of components of [0, 1] stays in [0, 1]. *)
Lemma fuse_unit (th : Q) (a : list Q) :
  0 <= th -> th <= 1 ->
  forall b, Forall unit01 a -> Forall unit01 b -> Forall unit01 (fuse th a b).
Proof.
  intros H0 H1. induction a as [|x xs IH]; intros [|y ys] Ha Hb; simpl;
    try constructor.
  - inversion Ha as [|? ? [Hx0 Hx1] _]. inversion Hb as [|? ? [Hy0 Hy1] _].
    subst. unfold unit01. split; nra.
  - inversion Ha. inversion Hb. now apply IH.
Qed.

(** ** Properties of the estimator *)

(** *** Arrays with one value *)

Lemma In_firstn_list {A} (x : A) (n : nat) :
  forall l, In x (firstn n l) -> In x l.
Proof.
  induction n as [|n IH]; intros [|y l] H; simpl in *; try contradiction.
  destruct H as [H|H]; auto.
Qed.

Lemma Forall2_In_right {A B} (R : A -> B -> Prop) (l : list A) (ys : list B) :
  Forall2 R l ys -> forall y, In y ys -> exists x, In x l /\ R x y.
Proof.
  induction 1 as [|x y l ys Hxy _ IH]; intros z Hz; simpl in *; [contradiction|].
  destruct Hz as [<-|Hz].
  - exists x. auto.
  - destruct (IH z Hz) as [x' [Hx' HR]]. exists x'. auto.
Qed.

(** minmax_scale sends an array with one value to zeros: the zero range is
    replaced by 1. *)
Lemma minmax_scale_const (a s : list Q) :
  (forall x x', In x a -> In x' a -> x = x') ->
  minmax_scale a = Ok s -> forall y, In y s -> y == 0.
Proof.
  intros Heq H y Hy. unfold minmax_scale in H.
  destruct (np_min a) as [mn|] eqn:Emn; [|discriminate].
  destruct (np_max a) as [mx|] eqn:Emx; [|discriminate].
  cbn [rbind] in H. cbv zeta in H.
  destruct (np_min_spec a mn Emn) as [Imn _].
  destruct (np_max_spec a mx Emx) as [Imx _].
  assert (mx = mn) as -> by (now apply Heq).
  assert (Hz : Qeq_bool (mn - mn) 0 = true) by (apply Qeq_bool_iff; ring).
  rewrite Hz in H. injection H as <-.
  apply in_map_iff in Hy. destruct Hy as [x [<- Hx]].
  assert (x = mn) as -> by (now apply Heq).
  field.
Qed.

Lemma fuse_zero (th : Q) :
  forall a b,
    (forall x, In x a -> x == 0) -> (forall y, In y b -> y == 0) ->
    forall z, In z (fuse th a b) -> z == 0.
Proof.
  induction a as [|x a IH]; intros [|y b] Ha Hb z Hz; simpl in Hz; try contradiction.
  destruct Hz as [<-|Hz].
  - rewrite (Ha x), (Hb y) by now left. ring.
  - apply (IH b); auto; intros; [apply Ha|apply Hb]; now right.
Qed.

Lemma Qsum_zero (l : list Q) : (forall x, In x l -> x == 0) -> Qsum l == 0.
Proof.
  unfold Qsum. induction l as [|x l IH]; intro H; simpl; [reflexivity|].
  rewrite (H x) by now left. rewrite IH; [ring|].
  intros y Hy. apply H. now right.
Qed.

(** The automatic alpha of all-zero scores is 0, or nan without anomalies. *)
Lemma alpha_auto_zero (l : list Q) (mn : Q) (g : np_float) :
  (forall x, In x l -> x == 0) -> mn == 0 ->
  alpha_auto l mn g = NaN \/ exists a, alpha_auto l mn g = Fin a /\ a == 0.
Proof.
  intros Hl Hmn. unfold alpha_auto, np_mean.
  destruct l as [|x l'] eqn:El; [now left|]. rewrite <- El in *.
  assert (Hz : (Qsum l / Qlen l + mn) / 2 == 0).
  { rewrite (Qsum_zero l Hl), Hmn. unfold Qdiv. ring. }
  assert (Hb : Qeq_bool ((Qsum l / Qlen l + mn) / 2) 0 = true)
    by now apply Qeq_bool_iff.
  destruct g as [y| | |]; cbn [np_mul]; rewrite ?Hb; auto.
  right. eexists. split; [reflexivity|]. rewrite Hz. ring.
Qed.

Section Properties.

Variable np_exp : Q -> Q.
Context {Forest : Type}.
Variable iforest_fit : Q -> Z -> list row -> result Forest.
Variable decision : Forest -> row -> Q.

Local Abbreviation score := (cal_weighted_score np_exp iforest_fit decision).
Local Abbreviation dt := (determine_trainset np_exp iforest_fit decision).

Lemma cal_similarity_score_inv (cs : list row) (arr : row) (s : Q) :
  cal_similarity_score np_exp cs arr = Ok s ->
  exists dists md,
    mapM (sq_dist arr) cs = Ok dists /\ np_min dists = Ok md /\
    length arr <> 0%nat /\ s = np_exp (- md / Qlen arr).
Proof.
  unfold cal_similarity_score.
  destruct (mapM (sq_dist arr) cs) as [dists|] eqn:Ed; [|discriminate].
  cbn [rbind]. destruct (np_min dists) as [md|] eqn:Em; [|discriminate].
  cbn [rbind]. destruct (Nat.eqb (length arr) 0) eqn:El; [discriminate|].
  intro H. inversion H. exists dists, md.
  apply Nat.eqb_neq in El. auto.
Qed.

(** The four stages of cal_weighted_score, when it returns. *)
Lemma score_inv (self : ADOA) (ws : list Q) :
  score self = Ok ws ->
  exists fr iso raw sim,
    iforest_fit (contamination self) (random_state self)
                (anomalies self ++ unlabel self) = Ok fr /\
    minmax_scale (map (fun x => - decision fr x) (anomalies self ++ unlabel self))
      = Ok iso /\
    mapM (cal_similarity_score np_exp (centers self)) (anomalies self ++ unlabel self)
      = Ok raw /\
    minmax_scale raw = Ok sim /\
    ws = fuse (theta self) iso sim.
Proof.
  unfold cal_weighted_score.
  destruct (iforest_fit _ _ _) as [fr|] eqn:Ef; [|discriminate]. cbn [rbind].
  destruct (minmax_scale (map _ _)) as [iso|] eqn:Ei; [|discriminate]. cbn [rbind].
  destruct (mapM _ _) as [raw|] eqn:Er; [|discriminate]. cbn [rbind].
  destruct (minmax_scale raw) as [sim|] eqn:Es; [|discriminate]. cbn [rbind].
  intro H. inversion H. exists fr, iso, raw, sim. auto.
Qed.

Lemma score_lengths (self : ADOA) (ws : list Q) :
  score self = Ok ws ->
  length ws = (length (anomalies self) + length (unlabel self))%nat /\ ws <> [].
Proof.
  intro H. destruct (score_inv self ws H) as (fr & iso & raw & sim & Hf & Hi & Hr & Hs & ->).
  pose proof (minmax_scale_length _ _ Hi) as Li. rewrite length_map in Li.
  pose proof (minmax_scale_length _ _ Hs) as Ls.
  pose proof (mapM_length _ _ _ Hr) as Lr.
  assert (L : length (fuse (theta self) iso sim) = length (anomalies self ++ unlabel self)).
  { rewrite fuse_length; congruence. }
  split; [now rewrite L, length_app|].
  intro E. rewrite E in L. simpl in L.
  destruct (anomalies self ++ unlabel self); [|discriminate].
  simpl in Hi. discriminate.
Qed.

(** With a fusion weight in [0, 1] every weighted score lies in [0, 1]. *)
Lemma score_unit (self : ADOA) (ws : list Q) :
  0 <= theta self -> theta self <= 1 -> score self = Ok ws -> Forall unit01 ws.
Proof.
  intros H0 H1 H.
  destruct (score_inv self ws H) as (fr & iso & raw & sim & Hf & Hi & Hr & Hs & ->).
  apply fuse_unit; try assumption; eapply minmax_scale_unit; eassumption.
Qed.

(** [np.square(arr - center).sum()] on two arrays of one length: the sum
    of the squared coordinate differences. *)
Lemma sq_dist_eq (arr c : row) :
  length c = length arr ->
  sq_dist arr c
  = Ok (fold_right Qplus 0
          (map (fun p => (fst p - snd p) * (fst p - snd p)) (combine arr c))).
Proof.
  intro H. unfold sq_dist, np_sub.
  assert (E : Nat.eqb (length arr) (length c) = true)
    by (apply Nat.eqb_eq; congruence).
  rewrite E. cbn [rbind]. unfold Qsum. now rewrite map_map.
Qed.

(** What minmax_scale returns, written out. *)
Lemma minmax_scale_formula (a s : list Q) :
  minmax_scale a = Ok s -> rescaled_by_extremes a s.
Proof.
  unfold minmax_scale, rescaled_by_extremes. intro H.
  destruct (np_min a) as [mn|] eqn:Emn; [|discriminate].
  destruct (np_max a) as [mx|] eqn:Emx; [|discriminate].
  cbn [rbind] in H. cbv zeta in H. injection H as <-.
  destruct (np_min_spec a mn Emn) as [Imn Hmin].
  destruct (np_max_spec a mx Emx) as [Imx Hmax].
  exists mn, mx. split; [exact Imn|]. split; [exact Imx|].
  split; [intros x Hx; split; auto|reflexivity].
Qed.

(** C7 (as amended). When cal_weighted_score returns, the weighted score of
    sample [i] is [theta * isolation_score_scaled[i] + (1 - theta) *
    similarity_score_scaled[i]]; the similarity score of a sample is
    [exp(-min_dist / len(arr))] with [min_dist] the least, over the cluster
    centers, of the sum of the squared coordinate differences; and each of
    the two families is rescaled by its own minimum and maximum, [x * scale_
    + min_], which leaves no component below 0 and sends the minimum to 0. *)
Theorem cal_weighted_score_spec (self : ADOA) (ws : list Q) :
  score self = Ok ws ->
  let dataset := anomalies self ++ unlabel self in
  exists fr iso raw sim,
    iforest_fit (contamination self) (random_state self) dataset = Ok fr /\
    rescaled_by_extremes (map (fun x => - decision fr x) dataset) iso /\
    Forall2 (fun arr s =>
               exists dists md,
                 Forall2 (fun c d =>
                            length c = length arr ->
                            d = fold_right Qplus 0
                                  (map (fun p => (fst p - snd p) * (fst p - snd p))
                                       (combine arr c)))
                         (centers self) dists /\
                 In md dists /\ (forall d, In d dists -> md <= d) /\
                 s = np_exp (- md / inject_Z (Z.of_nat (length arr)))) dataset raw /\
    rescaled_by_extremes raw sim /\
    length ws = length dataset /\
    (forall i, (i < length dataset)%nat ->
       nth i ws 0 = theta self * nth i iso 0 + (1 - theta self) * nth i sim 0) /\
    Forall (fun y => 0 <= y) iso /\ Forall (fun y => 0 <= y) sim /\
    (exists y, In y iso /\ y == 0) /\ (exists y, In y sim /\ y == 0).
Proof.
  intros H dataset.
  destruct (score_inv self ws H) as (fr & iso & raw & sim & Hf & Hi & Hr & Hs & ->).
  fold dataset in Hf, Hi, Hr.
  pose proof (minmax_scale_length _ _ Hi) as Li. rewrite length_map in Li.
  pose proof (minmax_scale_length _ _ Hs) as Ls.
  pose proof (mapM_length _ _ _ Hr) as Lr.
  assert (Hzero : forall a s, minmax_scale a = Ok s -> exists y, In y s /\ y == 0).
  { intros a s Hm. apply minmax_scale_formula in Hm.
    destruct Hm as (mn & mx & Imn & _ & _ & ->).
    eexists. split; [apply in_map; exact Imn|]. cbv beta. ring. }
  assert (Hnn : forall a s, minmax_scale a = Ok s -> Forall (fun y => 0 <= y) s).
  { intros a s Hm. apply minmax_scale_unit in Hm.
    eapply Forall_impl; [|exact Hm]. intros y [Hy _]. exact Hy. }
  exists fr, iso, raw, sim.
  split; [exact Hf|]. split; [now apply minmax_scale_formula|]. split.
  { apply mapM_Forall2 in Hr.
    eapply Forall2_impl; [|exact Hr].
    intros arr s Hs'. apply cal_similarity_score_inv in Hs'.
    destruct Hs' as (dists & md & Hd & Hm & _ & ->).
    apply np_min_spec in Hm. destruct Hm as [Hin Hle].
    exists dists, md. split; [|auto].
    apply mapM_Forall2 in Hd.
    eapply Forall2_impl; [|exact Hd].
    intros c d Hcd Hlen. cbv beta in Hcd.
    rewrite (sq_dist_eq arr c Hlen) in Hcd. congruence. }
  split; [now apply minmax_scale_formula|].
  split; [rewrite fuse_length; congruence|].
  split.
  { intros i Hi'. apply fuse_nth; congruence. }
  split; [eapply Hnn; eassumption|]. split; [eapply Hnn; eassumption|].
  split; eapply Hzero; eassumption.
Qed.

(** determine_trainset, when it returns a training set. *)
Lemma dt_ok_inv (self self' : ADOA) (out : trainset) :
  dt self = (self', Ok out) ->
  exists ws mn mx b0,
    score self = Ok ws /\ np_min ws = Ok mn /\ np_max ws = Ok mx /\
    let a := resolve_alpha self (firstn (length (anomalies self)) ws) mn in
    initial_beta ws (np_median ws) a (percent self) = Ok b0 /\
    let b := lr_beta (relax_loop ws a b0 (percent self)) in
    np_lt b a = true /\
    self' = set_beta (set_alpha self (Val a)) (Val b) /\
    out = build_trainset self ws mn mx a b.
Proof.
  unfold determine_trainset.
  destruct (score self) as [ws|] eqn:Es; [|intro H; inversion H].
  destruct (np_min ws) as [mn|] eqn:Emn; [|intro H; inversion H].
  destruct (np_max ws) as [mx|] eqn:Emx; [|intro H; inversion H].
  cbv zeta.
  destruct (initial_beta _ _ _ _) as [b0|] eqn:Eb; [|intro H; inversion H].
  intro H. exists ws, mn, mx, b0.
  split; [reflexivity|]. split; [exact Emn|]. split; [exact Emx|].
  cbv zeta. split; [exact Eb|].
  destruct (lr_exit _); try (inversion H; fail);
    destruct (np_lt _ _) eqn:Elt; inversion H; auto.
Qed.

(** *** Assignments to the thresholds leave everything else in place *)

Lemma score_set_alpha self t : score (set_alpha self t) = score self.
Proof. reflexivity. Qed.

Lemma score_set_beta self t : score (set_beta self t) = score self.
Proof. reflexivity. Qed.

Lemma set_alpha_set_alpha self t t' : set_alpha (set_alpha self t) t' = set_alpha self t'.
Proof. reflexivity. Qed.

Lemma set_beta_set_beta self t t' : set_beta (set_beta self t) t' = set_beta self t'.
Proof. reflexivity. Qed.

Lemma set_alpha_set_beta self t t' :
  set_alpha (set_beta self t) t' = set_beta (set_alpha self t') t.
Proof. reflexivity. Qed.

Lemma resolve_alpha_set_alpha self a l m : resolve_alpha (set_alpha self (Val a)) l m = a.
Proof. reflexivity. Qed.

Lemma resolve_alpha_set_beta self t l m :
  resolve_alpha (set_beta self t) l m = resolve_alpha self l m.
Proof. reflexivity. Qed.

Lemma build_trainset_set_alpha self t ws mn mx a b :
  build_trainset (set_alpha self t) ws mn mx a b = build_trainset self ws mn mx a b.
Proof. reflexivity. Qed.

Lemma build_trainset_set_beta self t ws mn mx a b :
  build_trainset (set_beta self t) ws mn mx a b = build_trainset self ws mn mx a b.
Proof. reflexivity. Qed.

(** determine_trainset written over its intermediate values. *)
Definition dt_from (self : ADOA) (ws : list Q) (mn mx : Q) : ADOA * result trainset :=
  let a := resolve_alpha self (firstn (length (anomalies self)) ws) mn in
  let self1 := set_alpha self (Val a) in
  match initial_beta ws (np_median ws) a (percent self) with
  | Raise e => (self1, Raise e)
  | Ok b0 =>
      let lr := relax_loop ws a b0 (percent self) in
      let self2 := set_beta self1 (Val (lr_beta lr)) in
      match lr_exit lr with
      | Raised e => (self2, Raise e)
      | OutOfBudget => (self2, Raise ExternalError)
      | _ => if np_lt (lr_beta lr) a
             then (self2, Ok (build_trainset self ws mn mx a (lr_beta lr)))
             else (self2, Raise AssertionError)
      end
  end.

Lemma dt_unfold self :
  dt self =
  match score self with
  | Raise e => (self, Raise e)
  | Ok ws =>
      match np_min ws with
      | Raise e => (self, Raise e)
      | Ok mn =>
          match np_max ws with
          | Raise e => (self, Raise e)
          | Ok mx => dt_from self ws mn mx
          end
      end
  end.
Proof. reflexivity. Qed.

(** The instance after the call is the old one with [alpha] resolved and
    possibly [beta] assigned; running the derivation on it again changes
    nothing and gives the same outcome. *)
Lemma dt_from_again self ws mn mx :
  dt_from (fst (dt_from self ws mn mx)) ws mn mx = dt_from self ws mn mx.
Proof.
  unfold dt_from at 2 3. cbv zeta.
  set (a := resolve_alpha self (firstn (length (anomalies self)) ws) mn).
  destruct (initial_beta ws (np_median ws) a (percent self)) as [b0|e] eqn:Eb.
  - set (lr := relax_loop ws a b0 (percent self)).
    assert (Hgo : dt_from (set_beta (set_alpha self (Val a)) (Val (lr_beta lr))) ws mn mx
                  = dt_from self ws mn mx).
    { unfold dt_from. cbv zeta.
      change (anomalies (set_beta (set_alpha self (Val a)) (Val (lr_beta lr))))
        with (anomalies self).
      change (percent (set_beta (set_alpha self (Val a)) (Val (lr_beta lr))))
        with (percent self).
      rewrite resolve_alpha_set_beta, resolve_alpha_set_alpha.
      fold a. rewrite Eb. fold lr.
      rewrite set_alpha_set_beta, set_alpha_set_alpha, set_beta_set_beta.
      rewrite build_trainset_set_beta, build_trainset_set_alpha.
      reflexivity. }
    destruct (lr_exit lr) eqn:Ex; cbn [fst];
      try destruct (np_lt (lr_beta lr) a) eqn:Elt; cbn [fst]; rewrite Hgo;
      unfold dt_from; cbv zeta; fold a; rewrite Eb; fold lr; rewrite Ex, ?Elt;
      reflexivity.
  - cbn [fst]. unfold dt_from. cbv zeta.
    change (anomalies (set_alpha self (Val a))) with (anomalies self).
    change (percent (set_alpha self (Val a))) with (percent self).
    rewrite resolve_alpha_set_alpha. fold a. rewrite Eb.
    rewrite set_alpha_set_alpha. reflexivity.
Qed.

(** Calling determine_trainset on the instance it leaves behind repeats its
    outcome and leaves the instance as it is. *)
Lemma dt_again self : dt (fst (dt self)) = dt self.
Proof.
  rewrite (dt_unfold self).
  destruct (score self) as [ws|e] eqn:Es.
  2:{ cbn [fst]. rewrite dt_unfold, Es. reflexivity. }
  destruct (np_min ws) as [mn|e] eqn:Emn.
  2:{ cbn [fst]. rewrite dt_unfold, Es, Emn. reflexivity. }
  destruct (np_max ws) as [mx|e] eqn:Emx.
  2:{ cbn [fst]. rewrite dt_unfold, Es, Emn, Emx. reflexivity. }
  rewrite dt_unfold.
  assert (Hs : score (fst (dt_from self ws mn mx)) = score self).
  { unfold dt_from. cbv zeta.
    destruct (initial_beta _ _ _ _); [|reflexivity].
    destruct (lr_exit _); try destruct (np_lt _ _); reflexivity. }
  rewrite Hs, Es, Emn, Emx. apply dt_from_again.
Qed.

(** C3. Two calls of determine_trainset on one instance, with nothing
    changed between them, return the same (X_train, y_train, weights). *)
Theorem determine_trainset_twice (self self1 : ADOA) (out : trainset) :
  dt self = (self1, Ok out) -> dt self1 = (self1, Ok out).
Proof.
  intro H. pose proof (dt_again self) as Hagain.
  rewrite H in Hagain. exact Hagain.
Qed.

(** *** The training set *)

Lemma np_between_excluded (a b : np_float) (s : Q) :
  np_lt b a = true -> np_ge (Fin s) a && np_le (Fin s) b = false.
Proof.
  unfold np_ge. intro H.
  destruct (np_le a (Fin s)) eqn:E1; [|reflexivity].
  destruct (np_le (Fin s) b) eqn:E2; [|reflexivity].
  exfalso. destruct a, b; simpl in *; try discriminate.
  apply Qltb_lt in H. apply Qle_bool_iff in E1. apply Qle_bool_iff in E2. lra.
Qed.

Lemma mask_select_length {A} (p : Q -> bool) (l : list A) :
  forall us, length l = length us ->
    length (mask_select l (map p us)) = count p us.
Proof.
  unfold count.
  induction l as [|x xs IH]; intros [|u us] H; simpl in *; try lia.
  destruct (p u); simpl; rewrite IH; lia.
Qed.

Lemma mask_select_self (p : Q -> bool) (us : list Q) :
  mask_select us (map p us) = filter p us.
Proof.
  induction us as [|u us IH]; simpl; [reflexivity|].
  destruct (p u); now rewrite IH.
Qed.

Lemma In_skipn {A} (x : A) (n : nat) :
  forall l, In x (skipn n l) -> In x l.
Proof.
  induction n as [|n IH]; intros [|y l] H; simpl in *; auto.
Qed.

(** The three arrays of lines 116-126. *)
Lemma build_trainset_eq (self : ADOA) ws mn mx a b :
  build_trainset self ws mn mx a b =
  let unlabel_scores := skipn (length (anomalies self)) ws in
  let ptt := fun s => np_ge (Fin s) a in
  let rlb := fun s => np_le (Fin s) b in
  (anomalies self ++ mask_select (unlabel self) (map ptt unlabel_scores)
     ++ mask_select (unlabel self) (map rlb unlabel_scores),
   repeat 1%Z (length (anomalies self))
     ++ repeat 1%Z (length (mask_select (unlabel self) (map ptt unlabel_scores)))
     ++ repeat 0%Z (length (mask_select (unlabel self) (map rlb unlabel_scores))),
   repeat (Fin 1) (length (anomalies self))
     ++ map (fun s => np_divide s mx) (filter ptt unlabel_scores)
     ++ map (fun s => np_divide (mx - s) (mx - mn)) (filter rlb unlabel_scores)).
Proof.
  unfold build_trainset. cbv zeta. rewrite !mask_select_self. reflexivity.
Qed.


Lemma np_divide_fin (x y : Q) : ~ y == 0 -> np_divide x y = Fin (x / y).
Proof.
  intro H. unfold np_divide.
  destruct (Qeq_bool y 0) eqn:E; [|reflexivity].
  apply Qeq_bool_iff in E. contradiction.
Qed.

Lemma np_divide_unit (x y : Q) : 0 <= x -> x <= y -> 0 < y -> in_unit (np_divide x y).
Proof.
  intros H0 H1 Hy. rewrite np_divide_fin by lra. simpl. split.
  - apply Qle_shift_div_l; [exact Hy|lra].
  - apply Qle_shift_div_r; [exact Hy|lra].
Qed.

(** C6 (as amended). When determine_trainset returns, the weights are 1.0
    for every known anomaly, [score / max_score] for every potential anomaly
    and [(max_score - score) / (max_score - min_score)] for every reliable
    normal, as numpy divides; and when the weighted scores are not all equal
    and theta lies in [0, 1], every weight lies in [0, 1]. *)
Theorem trainset_weights (self self' : ADOA) (X : list row) (y : list Z)
  (w : list np_float) :
  dt self = (self', Ok (X, y, w)) ->
  exists ws mn mx a b,
    score self = Ok ws /\ np_min ws = Ok mn /\ np_max ws = Ok mx /\
    alpha self' = Val a /\ beta self' = Val b /\
    let unlabel_scores := skipn (length (anomalies self)) ws in
    let ptt := fun s => np_ge (Fin s) a in
    let rlb := fun s => np_le (Fin s) b in
    w = repeat (Fin 1) (length (anomalies self))
          ++ map (fun s => np_divide s mx) (filter ptt unlabel_scores)
          ++ map (fun s => np_divide (mx - s) (mx - mn)) (filter rlb unlabel_scores) /\
    (mn < mx -> 0 <= theta self -> theta self <= 1 -> Forall in_unit w).
Proof.
  intro H. apply dt_ok_inv in H.
  destruct H as (ws & mn & mx & b0 & Hs & Hmn & Hmx & Hb0 & Hlt & -> & Hout).
  set (a := resolve_alpha self (firstn (length (anomalies self)) ws) mn) in *.
  set (b := lr_beta (relax_loop ws a b0 (percent self))) in *.
  exists ws, mn, mx, a, b.
  split; [exact Hs|]. split; [exact Hmn|]. split; [exact Hmx|].
  split; [reflexivity|]. split; [reflexivity|].
  cbv zeta.
  rewrite build_trainset_eq in Hout. cbv zeta in Hout.
  apply pair_equal_spec in Hout. destruct Hout as [_ Hw]. subst w.
  split; [reflexivity|].
  intros Hrange Ht0 Ht1.
  pose proof (score_unit self ws Ht0 Ht1 Hs) as Hunit.
  rewrite Forall_forall in Hunit.
  destruct (np_min_spec ws mn Hmn) as [Hmin_in Hmin].
  destruct (np_max_spec ws mx Hmx) as [_ Hmax].
  destruct (Hunit mn Hmin_in) as [Hmn0 _].
  assert (Hin : forall p s, In s (filter p (skipn (length (anomalies self)) ws)) -> In s ws).
  { intros p s Hs'. apply filter_In in Hs'. destruct Hs' as [Hs' _].
    eapply In_skipn; eassumption. }
  apply Forall_app. split.
  { apply Forall_forall. intros x Hx. apply repeat_spec in Hx. subst x.
    simpl. split; lra. }
  apply Forall_app. split; apply Forall_forall; intros x Hx;
    apply in_map_iff in Hx; destruct Hx as [s [<- Hs']]; apply Hin in Hs';
    destruct (Hunit s Hs') as [Hs0 _];
    pose proof (Hmin s Hs'); pose proof (Hmax s Hs');
    apply np_divide_unit; lra.
Qed.


(** When all samples are one and the same row, every weighted score is 0,
    whatever theta, the forest and the centers are. *)
Lemma score_identical_rows (self : ADOA) (ws : list Q) :
  (forall x x', In x (anomalies self ++ unlabel self) ->
                In x' (anomalies self ++ unlabel self) -> x = x') ->
  score self = Ok ws -> forall s, In s ws -> s == 0.
Proof.
  intros Heq Hs.
  destruct (score_inv self ws Hs) as (fr & iso & raw & sim & Hf & Hi & Hr & Hsim & ->).
  apply fuse_zero.
  - eapply minmax_scale_const; [|exact Hi].
    intros x x' Hx Hx'. apply in_map_iff in Hx, Hx'.
    destruct Hx as [r [<- Hr1]], Hx' as [r' [<- Hr2]].
    now rewrite (Heq r r' Hr1 Hr2).
  - apply (minmax_scale_const raw sim); [|exact Hsim].
    intros y y' Hy Hy'.
    pose proof (mapM_Forall2 _ _ _ Hr) as HF.
    destruct (Forall2_In_right _ _ _ HF y Hy) as [r [Hr1 E1]].
    destruct (Forall2_In_right _ _ _ HF y' Hy') as [r' [Hr2 E2]].
    rewrite (Heq r r' Hr1 Hr2) in E1. congruence.
Qed.

(** *** Construction and scoring on degenerate inputs *)

Variable fit_transform : list row -> result (list row).
Variable get_cluster_centers :
  list row -> n_clusters_t -> cluster_algo_t -> result (list row * Q).

Local Abbreviation init' := (init fit_transform get_cluster_centers).





(** [__init__] succeeds exactly on two two-dimensional arrays of one width
    that the scaler and the clustering accept. *)
Lemma init_ok_inv (args : init_args) (self : ADOA) :
  init' args = Ok self ->
  exists d ra ru scaled cs,
    arg_anomalies args = Array2 d ra /\ arg_unlabel args = Array2 d ru /\
    fit_transform (ra ++ ru) = Ok scaled /\
    get_cluster_centers (firstn (length ra) scaled) (arg_n_clusters args)
      (arg_cluster_algo args) = Ok cs /\
    self = mkADOA (firstn (length ra) scaled) (skipn (length ra) scaled)
             (arg_contamination args) (arg_classifer args)
             (arg_n_clusters args) (arg_cluster_algo args) (arg_theta args)
             (arg_alpha args) (arg_beta args) (arg_return_proba args)
             (arg_random_state args) (arg_percent args) (arg_gailv args)
             (fst cs) (snd cs).
Proof.
  unfold init, np_r_.
  destruct (arg_anomalies args) as [xs|d1 ra]; destruct (arg_unlabel args) as [ys|d2 ru];
    cbn [rbind np_len]; try discriminate.
  destruct (Nat.eqb d1 d2) eqn:Ed; cbn [rbind]; [|discriminate].
  apply Nat.eqb_eq in Ed. subst d2.
  destruct (fit_transform (ra ++ ru)) as [scaled|] eqn:Ef; cbn [rbind]; [|discriminate].
  destruct (get_cluster_centers _ _ _) as [cs|] eqn:Eg; cbn [rbind]; [|discriminate].
  intro H. injection H as <-.
  exists d1, ra, ru, scaled, cs. auto.
Qed.




(** *** Operations and the fields of the instance *)

Context {Clf : Type}.
Variable clf_fit : Clf -> list row -> list Z -> list np_float -> result Clf.
Variable clf_predict : Clf -> list row -> result (list Z).
Variable clf_predict_proba : Clf -> list row -> result (list (list Q)).

Local Abbreviation predict' :=
  (predict np_exp iforest_fit decision clf_fit clf_predict clf_predict_proba).
Local Abbreviation repr' := (repr np_exp iforest_fit decision).
Local Abbreviation run' :=
  (run np_exp iforest_fit decision clf_fit clf_predict clf_predict_proba).
Local Abbreviation run_all' :=
  (run_all np_exp iforest_fit decision clf_fit clf_predict clf_predict_proba).

(** An instance with its two thresholds blanked: all the other fields. *)
Definition frame (self : ADOA) : ADOA := set_beta (set_alpha self Auto) Auto.

Lemma dt_frame self : frame (fst (dt self)) = frame self.
Proof.
  rewrite dt_unfold.
  destruct (score self) as [ws|]; [|reflexivity].
  destruct (np_min ws) as [mn|]; [|reflexivity].
  destruct (np_max ws) as [mx|]; [|reflexivity].
  unfold dt_from. cbv zeta.
  destruct (initial_beta _ _ _ _); [|reflexivity].
  destruct (lr_exit _); try destruct (np_lt (lr_beta _) _); reflexivity.
Qed.

Lemma predict_self self (h : heap) : fst (fst (predict' self h)) = fst (dt self).
Proof.
  unfold predict. destruct (dt self) as [s1 [[[X y] w]|e]]; [|reflexivity].
  destruct (clf_fit _ _ _ _); [|reflexivity].
  destruct (clf_predict _ _); [|reflexivity].
  destruct (return_proba s1); [|reflexivity].
  destruct (rbind _ _); reflexivity.
Qed.

Lemma repr_self self : fst (repr' self) = fst (dt self).
Proof.
  unfold repr. destruct (dt self) as [s1 [[[X y] w]|e]]; reflexivity.
Qed.

Lemma run_self o (w : ADOA * heap) : fst (run' o w) = fst (dt (fst w)).
Proof.
  destruct o; cbn [run fst].
  - reflexivity.
  - apply predict_self.
  - apply repr_self.
Qed.


Lemma dt_alpha_kept (self : ADOA) (a : np_float) :
  alpha self = Val a -> alpha (fst (dt self)) = Val a.
Proof.
  intro Ha. rewrite dt_unfold.
  destruct (score self) as [ws|]; [|exact Ha].
  destruct (np_min ws) as [mn|]; [|exact Ha].
  destruct (np_max ws) as [mx|]; [|exact Ha].
  unfold dt_from. cbv zeta.
  assert (Hal : resolve_alpha self (firstn (length (anomalies self)) ws) mn = a).
  { unfold resolve_alpha. now rewrite Ha. }
  rewrite Hal.
  destruct (initial_beta _ _ _ _); [|reflexivity].
  destruct (lr_exit _); try destruct (np_lt (lr_beta _) a); reflexivity.
Qed.




End Properties.

(** ** The code evaluated on concrete instances *)

Definition manual_fixed : ADOA :=
  Sample.manual (Val (Fin (8 # 10))) (Val (Fin (2 # 10))).

Definition manual_auto : ADOA := Sample.manual Auto Auto.




Definition manual_auto_after : ADOA :=
  Eval vm_compute in fst (Sample.dt manual_auto).

Definition manual_auto_trainset : trainset :=
  Eval vm_compute in
    match snd (Sample.dt manual_auto) with
    | Ok out => out
    | Raise _ => ([], [], [])
    end.



(** A fusion weight outside [0, 1], with the threshold alpha given. *)
Definition theta_two : ADOA :=
  mkADOA [[0]] [[0]; [0]; [1 # 2]; [3]] (1 # 100) 0%nat (NClusters 1) kmeans
         2 (Val (Fin (- (1 # 2)))) Auto false 2018 45 (Fin 1) [[0]] 0.

(** Two features, two centers and [theta = 1/2]: both score families count. *)
Definition two_features : ADOA :=
  mkADOA [[3; 1]] [[0; 0]; [1; 0]; [2; 2]] (1 # 100) 0%nat (NClusters 2) kmeans
         (1 # 2) Auto Auto false 2018 45 (Fin 1) [[3; 1]; [0; 1]] 0.

Definition two_features_scores : list Q :=
  Eval vm_compute in
    match Sample.score two_features with Ok ws => ws | Raise _ => [] end.





(** A heap whose classifier objects are the stand-in classifier. *)
Definition sample_heap : @heap unit := fun _ => tt.

(** Three equal scores, and the first beta of lines 98-99 for alpha = 1. *)
Definition flat_scores : list Q := [1; 1; 1].


Definition flat_start (p : Z) : np_float :=
  match initial_beta flat_scores (np_median flat_scores) (Fin 1) p with
  | Ok b => b
  | Raise _ => NaN
  end.

(** C1. With [alpha = 0.8] and [beta = 0.2] given to the constructor and
    weighted scores [1 | 0, 5/9, 8/9], determine_trainset keeps alpha but
    overwrites beta with the median 13/18: the unlabeled row [1], whose score
    5/9 is above 0.2, is taken as a reliable normal. *)
Theorem manual_beta_overwritten :
  exists ws b X y w,
    Sample.score manual_fixed = Ok ws /\
    Forall2 Qeq ws [1; 0; 5 # 9; 8 # 9] /\
    Sample.dt manual_fixed
      = (set_beta manual_fixed (Val (Fin b)), Ok (X, y, w)) /\
    b == 13 # 18 /\
    X = [[3]; [2]; [0]; [1]] /\ y = [1; 1; 0; 0]%Z.
Proof.
  do 5 eexists.
  split; [vm_compute; reflexivity|].
  split; [repeat constructor|].
  split; [vm_compute; reflexivity|].
  split; [reflexivity|]. split; reflexivity.
Qed.

(** C2. When every row is the same all weighted scores are 0 and the
    automatic alpha is 0: no percentile is below alpha, the loop runs to the
    fallback, which sets [beta = alpha * 0.9 = 0], not below alpha, and the
    assertion of line 107 fires. *)
Theorem all_equal_assertion_fires :
  exists ws a b,
    Sample.score (Sample.all_equal Auto) = Ok ws /\
    Forall (fun s => s == 0) ws /\
    Sample.dt (Sample.all_equal Auto)
      = (set_beta (set_alpha (Sample.all_equal Auto) (Val (Fin a))) (Val (Fin b)),
         Raise AssertionError) /\
    a == 0 /\ b == a * (9 # 10) /\
    lr_exit (relax_loop ws (Fin a) (Fin 0) 45) = Fallback /\
    np_lt (Fin b) (Fin a) = false.
Proof.
  do 3 eexists. split; [vm_compute; reflexivity|].
  split; [repeat constructor|].
  split; [vm_compute; reflexivity|].
  split; [reflexivity|]. split; [reflexivity|].
  split; vm_compute; reflexivity.
Qed.

Lemma determine_trainset_twice_witness :
  Sample.dt manual_auto_after = (manual_auto_after, Ok manual_auto_trainset).
Proof.
  apply (determine_trainset_twice Sample.exp_rat Sample.fit_any
           Sample.decision_origin manual_auto).
  vm_compute. reflexivity.
Defined.



(** C7, counterexample. In binary64 minmax_scale sends the larger of the two
    scores -0.375 and -0.0625 to 1.0000000000000002, above 1; the rational
    model sends it to 1. *)
Lemma rescaled_component_above_one :
  exists s x s',
    Double.minmax_scale [(-0.375)%float; (-0.0625)%float] = Ok s /\
    In x s /\ PrimFloat.ltb 1%float x = true /\
    minmax_scale [- (3 # 8); - (1 # 16)] = Ok s' /\ Forall2 Qeq s' [0; 1].
Proof.
  do 3 eexists. split; [vm_compute; reflexivity|].
  split; [right; left; reflexivity|]. split; [vm_compute; reflexivity|].
  split; [vm_compute; reflexivity|]. repeat constructor.
Qed.

(** On the smallest positive double the product [alpha * 0.9] rounds back to
    alpha: the fallback of line 104 does not put beta below alpha there. *)
Example fallback_rounds_back_to_alpha :
  Double.times_09 0x1p-1074%float = 0x1p-1074%float /\
  PrimFloat.ltb (Double.times_09 0x1p-1074%float) 0x1p-1074%float = false.
Proof. split; vm_compute; reflexivity. Qed.

(** C6, counterexample. All scores equal (here 0) and alpha given: every
    unlabeled row is a reliable normal and its weight is 0/0, not a number
    of [0, 1]. *)
Lemma equal_scores_nan_weight :
  snd (Sample.dt (Sample.all_equal (Val (Fin (1 # 2)))))
    = Ok ([[0]; [0]; [0]], [1; 0; 0]%Z, [Fin 1; NaN; NaN]) /\
  (in_unit NaN <-> False).
Proof.
  split; [vm_compute; reflexivity|]. simpl. tauto.
Qed.

(** With [theta = 2] a potential anomaly can have a negative weight. *)
Lemma theta_outside_unit_negative_weight :
  exists X y w q,
    snd (Sample.dt theta_two) = Ok (X, y, w) /\ nth 1 w NaN = Fin q /\ q < 0.
Proof.
  do 4 eexists. split; [vm_compute; reflexivity|].
  split; [reflexivity|]. reflexivity.
Qed.

Lemma trainset_weights_witness :
  exists ws mn mx,
    Sample.score manual_auto = Ok ws /\ np_min ws = Ok mn /\ np_max ws = Ok mx /\
    (mn < mx -> 0 <= theta manual_auto -> theta manual_auto <= 1 ->
     Forall in_unit (snd manual_auto_trainset)).
Proof.
  destruct (trainset_weights Sample.exp_rat Sample.fit_any Sample.decision_origin
              manual_auto manual_auto_after
              (fst (fst manual_auto_trainset)) (snd (fst manual_auto_trainset))
              (snd manual_auto_trainset))
    as (ws & mn & mx & a & b & Hs & Hmn & Hmx & _ & _ & _ & Hunit).
  - vm_compute. reflexivity.
  - exists ws, mn, mx. auto.
Defined.

Lemma cal_weighted_score_spec_witness :
  Forall2 Qeq two_features_scores [1; 7 # 39; 11 # 40; 22 # 45] /\
  exists iso raw sim,
    Forall2 (fun arr s =>
               exists dists md,
                 Forall2 (fun c d =>
                            length c = length arr ->
                            d = fold_right Qplus 0
                                  (map (fun p => (fst p - snd p) * (fst p - snd p))
                                       (combine arr c)))
                         [[3; 1]; [0; 1]] dists /\
                 In md dists /\ (forall d, In d dists -> md <= d) /\
                 s = Sample.exp_rat (- md / inject_Z (Z.of_nat (length arr))))
            [[3; 1]; [0; 0]; [1; 0]; [2; 2]] raw /\
    rescaled_by_extremes raw sim /\
    (forall i, (i < 4)%nat ->
       nth i two_features_scores 0
       = (1 # 2) * nth i iso 0 + (1 - (1 # 2)) * nth i sim 0) /\
    Forall (fun y => 0 <= y) iso /\ Forall (fun y => 0 <= y) sim.
Proof.
  split; [vm_compute; repeat constructor|].
  destruct (cal_weighted_score_spec Sample.exp_rat Sample.fit_any
              Sample.decision_origin two_features two_features_scores)
    as (fr & iso & raw & sim & _ & _ & Hraw & Hsim & _ & Hnth & Hi & Hs & _).
  - vm_compute. reflexivity.
  - exists iso, raw, sim. auto.
Defined.




(** The loop on [flat_scores]: the fallback from 45, ValueError at -3 from 42. *)
Example relax_loop_flat_45 :
  lr_exit (relax_loop flat_scores (Fin 1) (flat_start 45) 45) = Fallback.
Proof. vm_compute. reflexivity. Qed.

Example relax_loop_flat_42 :
  lr_exit (relax_loop flat_scores (Fin 1) (flat_start 42) 42) = Raised ValueError /\
  lr_percent (relax_loop flat_scores (Fin 1) (flat_start 42) 42) = (-3)%Z.
Proof. vm_compute. split; reflexivity. Qed.

(** ** Further properties of the code *)

(** The counter after the loop, with the number of rounds bounded by the
    budget. *)
Lemma relax_rounds (f : nat) :
  forall ws a b p,
    exists j, (0 <= j <= Z.of_nat f)%Z /\
              lr_percent (relax f ws a b p) = (p - 5 * j)%Z.
Proof.
  induction f as [|f IH]; intros ws a b p.
  - exists 0%Z. cbn [relax lr_percent]. lia.
  - loop_round.
    + exists 1%Z. lia.
    + destruct (IH ws a b' (p - 5)%Z) as [j [Hj Hp]].
      exists (j + 1)%Z. split; [lia|]. rewrite Hp. lia.
    + exists 1%Z. lia.
    + exists 0%Z. lia.
Qed.

(** The relaxation loop of lines 100-106 terminates for every array, every
    alpha and beta and every integer percent, after at most 21 rounds: it
    leaves by its condition, by the fallback, or by the ValueError of
    np.percentile, and a larger recursion budget changes nothing. *)
Theorem relax_loop_always_terminates ws a b p :
  (lr_exit (relax_loop ws a b p) = CondFalse \/
   lr_exit (relax_loop ws a b p) = Fallback \/
   lr_exit (relax_loop ws a b p) = Raised ValueError) /\
  (exists j, (0 <= j <= 21)%Z /\ lr_percent (relax_loop ws a b p) = (p - 5 * j)%Z) /\
  (forall f, (21 <= f)%nat -> relax f ws a b p = relax_loop ws a b p).
Proof.
  split; [|split].
  - pose proof (relax_exit 21 ws a b p) as Hexit.
    pose proof (relax_loop_terminates ws a b p) as Hterm.
    fold (relax_loop ws a b p) in Hexit.
    destruct (lr_exit (relax_loop ws a b p)); auto.
    + destruct Hexit as [-> _]. auto.
    + congruence.
  - apply (relax_rounds 21).
  - intros f Hf. unfold relax_loop.
    destruct f as [|f]; [lia|]. rewrite !relax_S.
    destruct (np_ge b a); [|reflexivity].
    destruct (p - 5 =? 0)%Z; [reflexivity|].
    destruct (np_percentile ws (p - 5)) as [b'|e] eqn:E; [|reflexivity].
    apply np_percentile_ok_range in E.
    apply relax_budget_indep; lia.
Qed.

(** *** Counting *)

Lemma count_disjoint {A} (p q : A -> bool) (l : list A) :
  Forall (fun x => p x && q x = false) l ->
  (count p l + count q l <= length l)%nat.
Proof.
  unfold count. induction 1 as [|x l Hx _ IH]; simpl; [lia|].
  destruct (p x), (q x); simpl in *; try discriminate; lia.
Qed.

Lemma sum_repeat (v : Z) (n : nat) :
  fold_right Z.add 0%Z (repeat v n) = (v * Z.of_nat n)%Z.
Proof.
  induction n as [|n IH]; [simpl; lia|].
  cbn [repeat fold_right]. rewrite IH. lia.
Qed.

Lemma sum_app (l1 l2 : list Z) :
  fold_right Z.add 0%Z (l1 ++ l2)
  = (fold_right Z.add 0%Z l1 + fold_right Z.add 0%Z l2)%Z.
Proof.
  induction l1 as [|x l1 IH]; simpl; [reflexivity|]. rewrite IH. lia.
Qed.

Lemma count_zero_repeat (v : Z) (n : nat) :
  count (Z.eqb 0) (repeat v n) = if Z.eqb 0 v then n else 0%nat.
Proof.
  unfold count. induction n as [|n IH]; cbn [repeat filter length].
  - now destruct (Z.eqb 0 v).
  - destruct (Z.eqb 0 v) eqn:E; cbn [length]; rewrite IH; reflexivity.
Qed.

Lemma count_app {A} (p : A -> bool) (l1 l2 : list A) :
  count p (l1 ++ l2) = (count p l1 + count p l2)%nat.
Proof.
  unfold count. now rewrite filter_app, length_app.
Qed.

Lemma mask_select_In {A} (x : A) (l : list A) :
  forall m, In x (mask_select l m) -> In x l.
Proof.
  induction l as [|y l IH]; intros [|b m] H; simpl in *; try contradiction.
  destruct b; [destruct H as [H|H]|]; eauto.
Qed.

(** *** The thresholds a call leaves *)

(** Whatever alpha is, the beta the loop leaves is a percentile (or the
    first beta) or the fallback [alpha * 0.9]. *)
Lemma relax_beta_cases (f : nat) :
  forall ws a b p,
    ws <> [] -> finite b ->
    finite (lr_beta (relax f ws a b p)) \/
    lr_beta (relax f ws a b p) = np_times_09 a.
Proof.
  induction f as [|f IH]; intros ws a b p Hws Hb; [left; exact Hb|].
  loop_round; try (left; exact Hb).
  - right. reflexivity.
  - apply IH; [exact Hws|].
    destruct (np_percentile_fin ws (p - 5) Hws (np_percentile_ok_range _ _ _ Epc)) as [v Hv].
    exists v. congruence.
Qed.

Lemma np_lt_times_09_finite (a : np_float) :
  np_lt (np_times_09 a) a = true -> finite (np_times_09 a).
Proof.
  destruct a; simpl; try discriminate. intros _. eexists. reflexivity.
Qed.

Section MoreProperties.

Variable np_exp : Q -> Q.
Context {Forest : Type}.
Variable iforest_fit : Q -> Z -> list row -> result Forest.
Variable decision : Forest -> row -> Q.
Variable fit_transform : list row -> result (list row).
Variable get_cluster_centers :
  list row -> n_clusters_t -> cluster_algo_t -> result (list row * Q).
Context {Clf : Type}.
Variable clf_fit : Clf -> list row -> list Z -> list np_float -> result Clf.
Variable clf_predict : Clf -> list row -> result (list Z).
Variable clf_predict_proba : Clf -> list row -> result (list (list Q)).

Local Abbreviation score := (cal_weighted_score np_exp iforest_fit decision).
Local Abbreviation dt := (determine_trainset np_exp iforest_fit decision).
Local Abbreviation init' := (init fit_transform get_cluster_centers).
Local Abbreviation predict' :=
  (predict np_exp iforest_fit decision clf_fit clf_predict clf_predict_proba).
Local Abbreviation repr' := (repr np_exp iforest_fit decision).
Local Abbreviation run' :=
  (run np_exp iforest_fit decision clf_fit clf_predict clf_predict_proba).
Local Abbreviation run_all' :=
  (run_all np_exp iforest_fit decision clf_fit clf_predict clf_predict_proba).

(** Every call of determine_trainset that returns has passed the assertion
    of line 107, so it leaves [self.beta] a finite number strictly below
    [self.alpha]; neither threshold is ['auto'] or nan afterwards, and alpha
    is not minus infinity. *)
Theorem returned_thresholds_ordered (self self' : ADOA) (out : trainset) :
  dt self = (self', Ok out) ->
  exists a b,
    alpha self' = Val a /\ beta self' = Val (Fin b) /\
    np_lt (Fin b) a = true /\ a <> NaN /\ a <> NInf.
Proof.
  intro H. apply dt_ok_inv in H.
  destruct H as (ws & mn & mx & b0 & Hs & Hmn & Hmx & Hb0 & Hlt & -> & _).
  set (a := resolve_alpha self (firstn (length (anomalies self)) ws) mn) in *.
  destruct (score_lengths _ _ _ self ws Hs) as [_ Hne].
  pose proof (initial_beta_finite _ _ _ _ _ Hne (np_median_fin ws Hne) Hb0) as Hfin0.
  assert (Hfin : finite (lr_beta (relax_loop ws a b0 (percent self)))).
  { destruct (relax_beta_cases 21 ws a b0 (percent self) Hne Hfin0) as [Hf|Hf];
      [exact Hf|].
    unfold relax_loop in *. rewrite Hf in *. now apply np_lt_times_09_finite. }
  destruct Hfin as [b Hb]. rewrite Hb in Hlt.
  exists a, b. split; [reflexivity|].
  split; [cbn [beta set_beta]; now rewrite Hb|].
  split; [exact Hlt|].
  split; intro E; rewrite E in Hlt; discriminate.
Qed.

(** When theta lies in [0, 1] and cal_weighted_score returns, it returns one
    score per sample (anomalies first) and no weighted score is negative. *)
Theorem weighted_score_nonneg (self : ADOA) (ws : list Q) :
  0 <= theta self -> theta self <= 1 -> score self = Ok ws ->
  length ws = (length (anomalies self) + length (unlabel self))%nat /\
  Forall (fun s => 0 <= s) ws.
Proof.
  intros H0 H1 Hs. split.
  - apply (score_lengths _ _ _ self ws Hs).
  - pose proof (score_unit _ _ _ self ws H0 H1 Hs) as Hu.
    eapply Forall_impl; [|exact Hu]. intros s [Hs0 _]. exact Hs0.
Qed.

(** Once the forest is fitted, cal_weighted_score raises ValueError when
    there is no sample at all (minmax_scale of an empty array) and when
    there is no cluster center (np.min of an empty list of distances). *)
Theorem scoring_needs_samples_and_centers (self : ADOA) (fr : Forest) :
  iforest_fit (contamination self) (random_state self)
              (anomalies self ++ unlabel self) = Ok fr ->
  anomalies self ++ unlabel self = [] \/ centers self = [] ->
  score self = Raise ValueError.
Proof.
  intros Hfit Hcase. unfold cal_weighted_score. rewrite Hfit. cbn [rbind].
  destruct (anomalies self ++ unlabel self) as [|x rest] eqn:Ed.
  - reflexivity.
  - destruct Hcase as [Hc|Hc]; [discriminate|].
    destruct (minmax_scale_ok (map (fun x0 => - decision fr x0) (x :: rest)))
      as [iso ->]; [discriminate|].
    cbn [rbind]. rewrite Hc. reflexivity.
Qed.

(** Without any known anomaly the automatic alpha is the mean of an empty
    slice, nan: every comparison with it is false, so beta is the configured
    percentile, the loop is not entered, and the assertion of line 107
    fails.  A percent outside 0..100 raises ValueError instead. *)
Theorem no_anomalies_auto_alpha_asserts (self : ADOA) (ws : list Q) :
  anomalies self = [] -> alpha self = Auto -> score self = Ok ws ->
  (exists b,
     np_percentile ws (percent self) = Ok b /\
     dt self = (set_beta (set_alpha self (Val NaN)) (Val b), Raise AssertionError))
  \/
  (((percent self < 0)%Z \/ (100 < percent self)%Z) /\
   dt self = (set_alpha self (Val NaN), Raise ValueError)).
Proof.
  intros Ha Hauto Hs.
  destruct (score_lengths _ _ _ self ws Hs) as [_ Hne].
  destruct (np_min_ok ws Hne) as [mn Hmn].
  destruct (np_max_ok ws Hne) as [mx Hmx].
  rewrite dt_unfold, Hs, Hmn, Hmx. unfold dt_from. cbv zeta.
  assert (Hal : resolve_alpha self (firstn (length (anomalies self)) ws) mn = NaN).
  { unfold resolve_alpha. rewrite Hauto, Ha. reflexivity. }
  rewrite Hal.
  assert (Hib : initial_beta ws (np_median ws) NaN (percent self)
                = np_percentile ws (percent self)).
  { unfold initial_beta. now destruct (np_median ws). }
  rewrite Hib.
  destruct (np_percentile ws (percent self)) as [b|e] eqn:Ep.
  - left. exists b. split; [reflexivity|].
    rewrite relax_loop_unfold.
    assert (Hge : np_ge b NaN = false) by (unfold np_ge; reflexivity).
    rewrite Hge. cbn [lr_exit lr_beta].
    assert (Hlt : np_lt b NaN = false) by now destruct b.
    rewrite Hlt. reflexivity.
  - right. apply np_percentile_raise in Ep. destruct Ep as [-> Hr].
    split; [exact Hr|reflexivity].
Qed.

(** An alpha given by the caller is never changed: after any sequence of
    determine_trainset, predict and __repr__ calls, failed ones included,
    [self.alpha] is the supplied value. *)
Theorem supplied_alpha_never_changes (a : np_float) (ops : list operation) :
  forall w : ADOA * heap,
    alpha (fst w) = Val a -> alpha (fst (run_all' ops w)) = Val a.
Proof.
  induction ops as [|o ops IH]; intros w Ha; [exact Ha|].
  unfold run_all. cbn [fold_left]. apply IH.
  rewrite run_self. now apply dt_alpha_kept.
Qed.

(** *** predict *)

Lemma dt_classifer (self : ADOA) : classifer (fst (dt self)) = classifer self.
Proof.
  change (classifer (frame (fst (dt self))) = classifer (frame self)).
  now rewrite dt_frame.
Qed.

Lemma dt_unlabel (self : ADOA) : unlabel (fst (dt self)) = unlabel self.
Proof.
  change (unlabel (frame (fst (dt self))) = unlabel (frame self)).
  now rewrite dt_frame.
Qed.

Lemma dt_anomalies (self : ADOA) : anomalies (fst (dt self)) = anomalies self.
Proof.
  change (anomalies (frame (fst (dt self))) = anomalies (frame self)).
  now rewrite dt_frame.
Qed.


Lemma heap_set_other (h : @heap Clf) (r r' : nat) (c : Clf) :
  r' <> r -> heap_set h r c r' = h r'.
Proof.
  intro H. unfold heap_set. apply Nat.eqb_neq in H. now rewrite H.
Qed.

(** predict touches one classifier object only, the one [self.classifer]
    refers to; and when determine_trainset raises, predict raises the same
    exception with no classifier fitted at all. *)
Theorem predict_heap_frame (self : ADOA) (h : heap) :
  (forall r, r <> classifer self -> snd (fst (predict' self h)) r = h r) /\
  (forall e, snd (dt self) = Raise e ->
             predict' self h = (fst (dt self), h, Raise e)).
Proof.
  pose proof (dt_classifer self) as Hc.
  unfold predict. destruct (dt self) as [s1 [[[X y] w]|e]]; cbn [fst snd] in *.
  - split; [|discriminate].
    intros r Hr.
    destruct (clf_fit _ _ _ _) as [c|]; [|reflexivity].
    assert (Hset : heap_set h (classifer s1) c r = h r)
      by (apply heap_set_other; congruence).
    destruct (clf_predict _ _); [|exact Hset].
    destruct (return_proba s1); [|exact Hset].
    destruct (rbind _ _); exact Hset.
  - split; [reflexivity|]. intros e' He. now inversion He.
Qed.


(** *** __repr__ *)

Lemma repr_ok_inv (self self' : ADOA) (s : summary) :
  repr' self = (self', Ok s) ->
  exists X y w,
    dt self = (self', Ok (X, y, w)) /\
    let rll := Z.of_nat (count (Z.eqb 0) y) in
    let ptt := (fold_right Z.add 0 y - Z.of_nat (length (anomalies self)))%Z in
    s = mkSummary (length (centers self)) (cluster_score self)
          rll (np_divide (inject_Z rll) (Qlen (unlabel self)))
          ptt (np_divide (inject_Z ptt) (Qlen (unlabel self))).
Proof.
  pose proof (dt_unlabel self) as Hu.
  pose proof (dt_anomalies self) as Ha.
  unfold repr. destruct (dt self) as [s1 [[[X y] w]|e]]; cbn [fst snd] in *;
    [|discriminate].
  rewrite Hu, Ha. intro H. inversion H; subst.
  exists X, y, w. split; reflexivity.
Qed.

(** The labels of a returned training set, counted as __repr__ counts them. *)
Lemma trainset_label_counts (self self' : ADOA) X y w :
  dt self = (self', Ok (X, y, w)) ->
  exists ws a b,
    score self = Ok ws /\ alpha self' = Val a /\ beta self' = Val b /\
    let unlabel_scores := skipn (length (anomalies self)) ws in
    let n_rll := count (fun x => np_le (Fin x) b) unlabel_scores in
    let n_ptt := count (fun x => np_ge (Fin x) a) unlabel_scores in
    count (Z.eqb 0) y = n_rll /\
    (fold_right Z.add 0 y - Z.of_nat (length (anomalies self)))%Z = Z.of_nat n_ptt /\
    (n_rll + n_ptt <= length (unlabel self))%nat.
Proof.
  intro H. apply dt_ok_inv in H.
  destruct H as (ws & mn & mx & b0 & Hs & Hmn & Hmx & Hb0 & Hlt & -> & Hout).
  set (a := resolve_alpha self (firstn (length (anomalies self)) ws) mn) in *.
  set (b := lr_beta (relax_loop ws a b0 (percent self))) in *.
  exists ws, a, b.
  split; [exact Hs|]. split; [reflexivity|]. split; [reflexivity|].
  cbv zeta.
  destruct (score_lengths _ _ _ self ws Hs) as [Hlen _].
  assert (Hus : length (unlabel self) = length (skipn (length (anomalies self)) ws)).
  { rewrite length_skipn. lia. }
  rewrite build_trainset_eq in Hout. cbv zeta in Hout.
  apply pair_equal_spec in Hout. destruct Hout as [Hout _].
  apply pair_equal_spec in Hout. destruct Hout as [_ Hy].
  rewrite !(mask_select_length _ _ _ Hus) in Hy.
  subst y. rewrite !count_app, !count_zero_repeat, !sum_app, !sum_repeat.
  cbn [Z.eqb].
  split; [lia|]. split; [lia|].
  rewrite Hus. rewrite Nat.add_comm. apply count_disjoint.
  apply Forall_forall. intros s _. now apply np_between_excluded.
Qed.

(** The two numbers __repr__ prints are the number of unlabeled scores not
    above beta (reliable normals) and the number not below alpha (potential
    anomalies); together they never exceed the number of unlabeled rows.
    The first line shows the number of cluster centers and the clustering
    score stored by the constructor. *)
Theorem repr_counts (self self' : ADOA) (s : summary) :
  repr' self = (self', Ok s) ->
  exists ws a b,
    score self = Ok ws /\ alpha self' = Val a /\ beta self' = Val b /\
    let unlabel_scores := skipn (length (anomalies self)) ws in
    rll_num s = Z.of_nat (count (fun x => np_le (Fin x) b) unlabel_scores) /\
    ptt_num s = Z.of_nat (count (fun x => np_ge (Fin x) a) unlabel_scores) /\
    (rll_num s + ptt_num s <= Z.of_nat (length (unlabel self)))%Z /\
    n_centers s = length (centers self) /\ quality s = cluster_score self.
Proof.
  intro H. apply repr_ok_inv in H. destruct H as (X & y & w & Hdt & ->).
  destruct (trainset_label_counts self self' X y w Hdt)
    as (ws & a & b & Hs & Ha & Hb & Hrll & Hptt & Hle).
  exists ws, a, b. split; [exact Hs|]. split; [exact Ha|]. split; [exact Hb|].
  cbv zeta. cbn [rll_num ptt_num n_centers quality].
  rewrite Hrll, Hptt. repeat split; try reflexivity. lia.
Qed.

(** The two shares __repr__ prints are nan when there is no unlabeled row
    (0/0, which numpy does not raise on); otherwise they are the counts
    divided by the number of unlabeled rows, both non-negative and with a
    sum of at most 1. *)
Theorem repr_shares (self self' : ADOA) (s : summary) :
  repr' self = (self', Ok s) ->
  (unlabel self = [] -> rll_share s = NaN /\ ptt_share s = NaN) /\
  (unlabel self <> [] ->
   exists r p,
     rll_share s = Fin r /\ ptt_share s = Fin p /\
     r == inject_Z (rll_num s) / Qlen (unlabel self) /\
     p == inject_Z (ptt_num s) / Qlen (unlabel self) /\
     0 <= r /\ 0 <= p /\ r + p <= 1).
Proof.
  intro H. apply repr_ok_inv in H. destruct H as (X & y & w & Hdt & ->).
  destruct (trainset_label_counts self self' X y w Hdt)
    as (ws & a & b & Hs & Ha & Hb & Hrll & Hptt & Hle).
  cbv zeta. cbn [rll_num ptt_num rll_share ptt_share].
  rewrite Hrll, Hptt.
  set (n_rll := count (fun x => np_le (Fin x) b) (skipn (length (anomalies self)) ws)) in *.
  set (n_ptt := count (fun x => np_ge (Fin x) a) (skipn (length (anomalies self)) ws)) in *.
  split.
  - intro Hu. rewrite Hu in *. cbn [length] in Hle.
    assert (n_rll = 0%nat) as -> by lia. assert (n_ptt = 0%nat) as -> by lia.
    split; reflexivity.
  - intro Hu.
    assert (Hpos : 0 < Qlen (unlabel self)).
    { unfold Qlen. destruct (unlabel self); [congruence|].
      cbn [length]. unfold Qlt. simpl. lia. }
    assert (Hrq : 0 <= inject_Z (Z.of_nat n_rll)).
    { unfold Qle. simpl. lia. }
    assert (Hpq : 0 <= inject_Z (Z.of_nat n_ptt)).
    { unfold Qle. simpl. lia. }
    assert (Hsum : inject_Z (Z.of_nat n_rll) + inject_Z (Z.of_nat n_ptt)
                   <= Qlen (unlabel self)).
    { unfold Qlen. rewrite <- inject_Z_plus. rewrite <- Zle_Qle. lia. }
    rewrite !np_divide_fin by lra.
    do 2 eexists. split; [reflexivity|]. split; [reflexivity|].
    split; [reflexivity|]. split; [reflexivity|].
    split; [apply Qle_shift_div_l; [exact Hpos|lra]|].
    split; [apply Qle_shift_div_l; [exact Hpos|lra]|].
    unfold Qdiv. rewrite <- Qmult_plus_distr_l.
    apply Qle_shift_div_r; [exact Hpos|lra].
Qed.

(** *** __init__ and the rows of the training set *)

(** A constructed instance holds every scaled row exactly once: the two
    arguments were two-dimensional arrays of one width; the anomalies and the
    unlabeled rows, put together again, are the scaler's output, cut at the
    number of anomalies passed in; the centers and their score are those of
    the scaled anomalies; the other arguments are stored as given.  When the
    scaler keeps the number of rows, as StandardScaler does, the two parts
    have the sizes of the two arguments. *)
Theorem init_splits_scaled_rows (args : init_args) (self : ADOA) :
  init' args = Ok self ->
  exists d ra ru scaled,
    arg_anomalies args = Array2 d ra /\ arg_unlabel args = Array2 d ru /\
    fit_transform (ra ++ ru) = Ok scaled /\
    anomalies self ++ unlabel self = scaled /\
    (length (anomalies self) <= length ra)%nat /\
    (length scaled = length (ra ++ ru) ->
     length (anomalies self) = length ra /\
     length (unlabel self) = length ru) /\
    get_cluster_centers (anomalies self) (n_clusters self) (cluster_algo self)
      = Ok (centers self, cluster_score self) /\
    theta self = arg_theta args /\ percent self = arg_percent args /\
    gailv self = arg_gailv args /\ contamination self = arg_contamination args /\
    random_state self = arg_random_state args /\
    return_proba self = arg_return_proba args /\
    classifer self = arg_classifer args.
Proof.
  intro H. apply init_ok_inv in H.
  destruct H as (d & ra & ru & scaled & [cs q] & Ha & Hu & Hf & Hg & ->).
  cbn. exists d, ra, ru, scaled.
  split; [exact Ha|]. split; [exact Hu|]. split; [exact Hf|].
  split; [apply firstn_skipn|].
  split; [rewrite length_firstn; lia|].
  split.
  - rewrite length_app. intro Hl.
    rewrite length_firstn, length_skipn. lia.
  - repeat split; try reflexivity. exact Hg.
Qed.

(** A returned training set is made of input rows only and is never larger
    than the input: every row of X_train is a (scaled) anomaly or unlabeled
    row, there are at most [len(anomalies) + len(unlabel)] of them, every
    label is 0 or 1, and the label 1 occurs as soon as there is an anomaly. *)
Theorem trainset_within_inputs (self self' : ADOA) (X : list row) (y : list Z)
  (w : list np_float) :
  dt self = (self', Ok (X, y, w)) ->
  (length X <= length (anomalies self) + length (unlabel self))%nat /\
  (forall r, In r X -> In r (anomalies self) \/ In r (unlabel self)) /\
  (forall l, In l y -> l = 0%Z \/ l = 1%Z) /\
  (anomalies self <> [] -> In 1%Z y).
Proof.
  intro H. apply dt_ok_inv in H.
  destruct H as (ws & mn & mx & b0 & Hs & Hmn & Hmx & Hb0 & Hlt & -> & Hout).
  set (a := resolve_alpha self (firstn (length (anomalies self)) ws) mn) in *.
  set (b := lr_beta (relax_loop ws a b0 (percent self))) in *.
  destruct (score_lengths _ _ _ self ws Hs) as [Hlen _].
  assert (Hus : length (unlabel self) = length (skipn (length (anomalies self)) ws)).
  { rewrite length_skipn. lia. }
  rewrite build_trainset_eq in Hout. cbv zeta in Hout.
  apply pair_equal_spec in Hout. destruct Hout as [Hout _].
  apply pair_equal_spec in Hout. destruct Hout as [HX Hy].
  split; [|split; [|split]].
  - subst X. rewrite !length_app, !(mask_select_length _ _ _ Hus).
    assert (Hd : (count (fun s => np_ge (Fin s) a) (skipn (length (anomalies self)) ws)
                  + count (fun s => np_le (Fin s) b) (skipn (length (anomalies self)) ws)
                  <= length (skipn (length (anomalies self)) ws))%nat).
    { apply count_disjoint. apply Forall_forall. intros s _.
      now apply np_between_excluded. }
    lia.
  - subst X. intros r Hr.
    apply in_app_or in Hr. destruct Hr as [Hr|Hr]; [now left|right].
    apply in_app_or in Hr. destruct Hr as [Hr|Hr]; eapply mask_select_In; exact Hr.
  - subst y. intros l Hl.
    apply in_app_or in Hl. destruct Hl as [Hl|Hl];
      [apply repeat_spec in Hl; now right|].
    apply in_app_or in Hl. destruct Hl as [Hl|Hl]; apply repeat_spec in Hl; auto.
  - subst y. intro Hne. apply in_or_app. left.
    destruct (anomalies self); [congruence|]. now left.
Qed.

End MoreProperties.

(** ** Scores that cannot be separated *)

(** When no score is below alpha, no beta the loop tries is: the loop can
    leave only with a beta that is not below alpha unless alpha is positive. *)
Lemma relax_not_below (f : nat) :
  forall ws a v p,
    ws <> [] -> (forall x, In x ws -> a <= x) -> a <= 0 -> a <= v ->
    np_lt (lr_beta (relax f ws (Fin a) (Fin v) p)) (Fin a) = false.
Proof.
  induction f as [|f IH]; intros ws a v p Hws Hall Ha Hv.
  - cbn [relax lr_beta np_lt]. unfold Qltb. apply negb_false_iff.
    now apply Qle_bool_iff.
  - assert (Hb : np_lt (Fin v) (Fin a) = false).
    { cbn [np_lt]. unfold Qltb. apply negb_false_iff. now apply Qle_bool_iff. }
    loop_round; try exact Hb.
    + cbn [np_times_09 np_lt]. unfold Qltb. apply negb_false_iff.
      apply Qle_bool_iff. lra.
    + destruct (np_max_ok ws Hws) as [mx Hmx].
      destruct (np_max_spec ws mx Hmx) as [_ Hmax].
      destruct (np_percentile_between ws (p - 5) b' a mx Hws) as [v' [-> [Hv' _]]];
        [intros x Hx; split; auto|exact Epc|].
      now apply IH.
Qed.

Lemma np_lt_ge_false (v a : Q) : a <= v -> np_lt (Fin v) (Fin a) = false.
Proof.
  intro H. cbn [np_lt]. unfold Qltb. apply negb_false_iff. now apply Qle_bool_iff.
Qed.

(** The beta the loop leaves is the fallback or a value within the bounds
    of the scores. *)
Lemma relax_beta_lower (f : nat) :
  forall ws a v p lo hi,
    ws <> [] -> (forall x, In x ws -> lo <= x /\ x <= hi) -> lo <= v ->
    (exists b, lr_beta (relax f ws a (Fin v) p) = Fin b /\ lo <= b) \/
    lr_beta (relax f ws a (Fin v) p) = np_times_09 a.
Proof.
  induction f as [|f IH]; intros ws a v p lo hi Hws Hbd Hv.
  - left. exists v. auto.
  - loop_round.
    + now right.
    + destruct (np_percentile_between ws (p - 5) b' lo hi Hws Hbd Epc)
        as [v' [-> [Hv' _]]].
      now apply (IH ws a v' (p - 5)%Z lo hi).
    + left. exists v. auto.
    + left. exists v. auto.
Qed.

(** Lines 98-107 with an alpha that is not positive and not above any
    score: the assertion fails, unless np.percentile raised before. *)
Lemma dt_from_nonpositive (self : ADOA) ws mn mx a :
  ws <> [] -> np_min ws = Ok mn ->
  resolve_alpha self (firstn (length (anomalies self)) ws) mn = Fin a ->
  a <= 0 -> a <= mn ->
  snd (dt_from self ws mn mx) = Raise AssertionError \/
  snd (dt_from self ws mn mx) = Raise ValueError.
Proof.
  intros Hne Hmn Ha H0 Hle.
  destruct (np_min_spec ws mn Hmn) as [_ Hmin].
  destruct (np_max_ok ws Hne) as [mx' Hmx].
  destruct (np_max_spec ws mx' Hmx) as [_ Hmax].
  assert (Hall : forall x, In x ws -> a <= x).
  { intros x Hx. specialize (Hmin x Hx). lra. }
  assert (Hbd : forall x, In x ws -> a <= x /\ x <= mx') by (intros x Hx; split; auto).
  unfold dt_from. cbv zeta. rewrite Ha.
  destruct (np_median_between ws a mx' Hne Hbd) as [m [Hmed [Hm _]]].
  unfold initial_beta. rewrite Hmed, (np_lt_ge_false m a Hm).
  destruct (np_percentile ws (percent self)) as [b0|e] eqn:Ep.
  - destruct (np_percentile_between ws _ b0 a mx' Hne Hbd Ep) as [v [-> [Hv _]]].
    pose proof (relax_not_below 21 ws a v (percent self) Hne Hall H0 Hv) as Hnb.
    pose proof (relax_exit 21 ws (Fin a) (Fin v) (percent self)) as Hexit.
    pose proof (relax_loop_terminates ws (Fin a) (Fin v) (percent self)) as Hterm.
    fold (relax_loop ws (Fin a) (Fin v) (percent self)) in Hnb, Hexit.
    destruct (lr_exit (relax_loop ws (Fin a) (Fin v) (percent self))).
    + rewrite Hnb. now left.
    + rewrite Hnb. now left.
    + destruct Hexit as [-> _]. now right.
    + congruence.
  - apply np_percentile_raise in Ep. destruct Ep as [-> _]. now right.
Qed.

(** Lines 98-107 with alpha nan. *)
Lemma dt_from_nan (self : ADOA) ws mn mx :
  resolve_alpha self (firstn (length (anomalies self)) ws) mn = NaN ->
  snd (dt_from self ws mn mx) = Raise AssertionError \/
  snd (dt_from self ws mn mx) = Raise ValueError.
Proof.
  intro Ha. unfold dt_from. cbv zeta. rewrite Ha.
  assert (Hib : initial_beta ws (np_median ws) NaN (percent self)
                = np_percentile ws (percent self)).
  { unfold initial_beta. now destruct (np_median ws). }
  rewrite Hib.
  destruct (np_percentile ws (percent self)) as [b|e] eqn:Ep.
  - left. rewrite relax_loop_unfold.
    assert (Hge : np_ge b NaN = false) by (unfold np_ge; reflexivity).
    rewrite Hge. cbn [lr_exit lr_beta].
    assert (Hlt : np_lt b NaN = false) by now destruct b.
    rewrite Hlt. reflexivity.
  - right. apply np_percentile_raise in Ep. destruct Ep as [-> _]. reflexivity.
Qed.

Section Degenerate.

Variable np_exp : Q -> Q.
Context {Forest : Type}.
Variable iforest_fit : Q -> Z -> list row -> result Forest.
Variable decision : Forest -> row -> Q.

Local Abbreviation score := (cal_weighted_score np_exp iforest_fit decision).
Local Abbreviation dt := (determine_trainset np_exp iforest_fit decision).

(** With theta in [0, 1], a call of determine_trainset that returns leaves a
    strictly positive alpha and a beta that is not negative: with an alpha
    that is zero or negative, given or computed, no score is below it, the
    loop runs to the fallback [alpha * 0.9], which is not below alpha
    either, and the assertion fails. *)
Theorem returned_thresholds_positive (self self' : ADOA) (out : trainset) :
  0 <= theta self -> theta self <= 1 ->
  dt self = (self', Ok out) ->
  exists a b,
    alpha self' = Val a /\ beta self' = Val (Fin b) /\
    np_lt (Fin 0) a = true /\ 0 <= b.
Proof.
  intros T0 T1 H. pose proof H as Hdt. apply dt_ok_inv in H.
  destruct H as (ws & mn & mx & b0 & Hs & Hmn & Hmx & Hb0 & Hlt & -> & _).
  set (a := resolve_alpha self (firstn (length (anomalies self)) ws) mn) in *.
  destruct (score_lengths _ _ _ self ws Hs) as [_ Hne].
  pose proof (score_unit _ _ _ self ws T0 T1 Hs) as Hu.
  rewrite Forall_forall in Hu.
  destruct (np_min_spec ws mn Hmn) as [Imn _].
  destruct (np_max_spec ws mx Hmx) as [_ Hmax].
  assert (Hbd : forall x, In x ws -> 0 <= x /\ x <= mx).
  { intros x Hx. split; [apply (Hu x Hx)|now apply Hmax]. }
  assert (Hpos : np_lt (Fin 0) a = true).
  { destruct a as [q| | |] eqn:Ea.
    - destruct (Qlt_le_dec 0 q) as [Hq|Hq]; [now apply Qltb_lt|].
      exfalso.
      assert (Hq' : q <= mn) by (destruct (Hu mn Imn); lra).
      pose proof (dt_from_nonpositive self ws mn mx q Hne Hmn Ea Hq Hq') as Hfail.
      rewrite dt_unfold, Hs, Hmn, Hmx in Hdt. rewrite Hdt in Hfail.
      cbn [snd] in Hfail. destruct Hfail; discriminate.
    - exfalso. destruct (lr_beta _); discriminate Hlt.
    - reflexivity.
    - exfalso. destruct (lr_beta _); discriminate Hlt. }
  assert (Hb0' : exists v0, b0 = Fin v0 /\ 0 <= v0).
  { unfold initial_beta in Hb0. destruct (np_lt (np_median ws) a).
    - destruct (np_median_between ws 0 mx Hne Hbd) as [m [Hm [Hm0 _]]].
      exists m. split; [congruence|exact Hm0].
    - destruct (np_percentile_between ws _ b0 0 mx Hne Hbd Hb0) as [v [-> [Hv _]]].
      exists v. auto. }
  destruct Hb0' as [v0 [-> Hv0]].
  destruct (relax_beta_lower 21 ws a v0 (percent self) 0 mx Hne Hbd Hv0)
    as [[b [Hb Hb0']]|Hfb].
  - fold (relax_loop ws a (Fin v0) (percent self)) in Hb.
    exists a, b. split; [reflexivity|].
    split; [cbn [beta set_beta]; now rewrite Hb|]. auto.
  - fold (relax_loop ws a (Fin v0) (percent self)) in Hfb.
    rewrite Hfb in Hlt.
    destruct a as [q| | |]; try discriminate Hlt.
    apply Qltb_lt in Hpos.
    exists (Fin q), (q * (9 # 10)). split; [reflexivity|].
    split; [cbn [beta set_beta]; now rewrite Hfb|].
    split; [now apply Qltb_lt|]. nra.
Qed.

(** When every sample, anomaly or unlabeled, is one and the same row, all
    weighted scores are 0 and the automatic alpha is 0 (or nan): a call of
    determine_trainset with [alpha = 'auto'] never returns a training set.
    It raises what scoring raised, or AssertionError, or the ValueError of
    an invalid percentile. *)
Theorem identical_rows_never_train (self : ADOA) :
  (forall x x', In x (anomalies self ++ unlabel self) ->
                In x' (anomalies self ++ unlabel self) -> x = x') ->
  alpha self = Auto ->
  (exists e, score self = Raise e /\ dt self = (self, Raise e)) \/
  snd (dt self) = Raise AssertionError \/ snd (dt self) = Raise ValueError.
Proof.
  intros Heq Hauto. rewrite dt_unfold.
  destruct (score self) as [ws|e] eqn:Hs; [right|left; exists e; auto].
  pose proof (score_identical_rows _ _ _ self ws Heq Hs) as Hz.
  destruct (score_lengths _ _ _ self ws Hs) as [_ Hne].
  destruct (np_min_ok ws Hne) as [mn Hmn].
  destruct (np_max_ok ws Hne) as [mx Hmx].
  rewrite Hmn, Hmx.
  destruct (np_min_spec ws mn Hmn) as [Imn _].
  pose proof (Hz mn Imn) as Hmn0.
  assert (Hal : resolve_alpha self (firstn (length (anomalies self)) ws) mn
                = alpha_auto (firstn (length (anomalies self)) ws) mn (gailv self)).
  { unfold resolve_alpha. now rewrite Hauto. }
  destruct (alpha_auto_zero (firstn (length (anomalies self)) ws) mn (gailv self))
    as [Hn|[a [Ha Ha0]]].
  - intros x Hx. apply Hz. eapply In_firstn_list. exact Hx.
  - exact Hmn0.
  - apply dt_from_nan. congruence.
  - apply (dt_from_nonpositive self ws mn mx a Hne Hmn); [congruence|lra|lra].
Qed.

End Degenerate.

(** ** The further properties on concrete instances *)

(** No cluster center was found. *)
Definition no_centers : ADOA :=
  mkADOA [[3]] [[0]; [1]] (1 # 100) 0%nat (NClusters 1) kmeans
         (85 # 100) Auto Auto false 2018 45 (Fin 1) [] 0.

(** No known anomaly: three unlabeled rows and one center. *)
Definition no_anomalies : ADOA :=
  mkADOA [] [[0]; [1]; [2]] (1 # 100) 0%nat (NClusters 1) kmeans
         (85 # 100) Auto Auto false 2018 45 (Fin 1) [[3]] 0.

Definition no_anomalies_scores : list Q :=
  Eval vm_compute in
    match Sample.score no_anomalies with Ok ws => ws | Raise _ => [] end.

(** The arguments from which [manual_auto] is constructed. *)
Definition manual_args : init_args :=
  mkArgs (Array2 1 [[3]]) (Array2 1 [[0]; [1]; [2]]) 0%nat kmeans (NClusters 1)
         (1 # 100) 1 Auto Auto false 2018 45 (Fin 1).


Definition sample_repr : ADOA * result summary :=
  repr Sample.exp_rat Sample.fit_any Sample.decision_origin manual_auto.

Definition manual_auto_summary : summary :=
  Eval vm_compute in
    match snd sample_repr with
    | Ok s => s
    | Raise _ => mkSummary 0 0 0 NaN 0 NaN
    end.

Lemma returned_thresholds_ordered_witness :
  exists a b,
    alpha manual_auto_after = Val a /\ beta manual_auto_after = Val (Fin b) /\
    np_lt (Fin b) a = true.
Proof.
  destruct (returned_thresholds_ordered Sample.exp_rat Sample.fit_any
              Sample.decision_origin manual_auto manual_auto_after
              manual_auto_trainset)
    as (a & b & Ha & Hb & Hlt & _).
  - vm_compute. reflexivity.
  - exists a, b. auto.
Defined.

Lemma weighted_score_nonneg_witness :
  length two_features_scores = 4%nat /\
  Forall (fun s => 0 <= s) two_features_scores.
Proof.
  apply (weighted_score_nonneg Sample.exp_rat Sample.fit_any Sample.decision_origin
           two_features two_features_scores).
  - cbn. lra.
  - cbn. lra.
  - vm_compute. reflexivity.
Defined.

Lemma scoring_needs_samples_and_centers_witness :
  Sample.score no_centers = Raise ValueError.
Proof.
  apply (scoring_needs_samples_and_centers Sample.exp_rat Sample.fit_any
           Sample.decision_origin no_centers tt).
  - reflexivity.
  - right. reflexivity.
Defined.

Lemma no_anomalies_auto_alpha_asserts_witness :
  exists b,
    Sample.dt no_anomalies
    = (set_beta (set_alpha no_anomalies (Val NaN)) (Val b), Raise AssertionError).
Proof.
  destruct (no_anomalies_auto_alpha_asserts Sample.exp_rat Sample.fit_any
              Sample.decision_origin no_anomalies no_anomalies_scores)
    as [[b [_ H]]|[H _]].
  - reflexivity.
  - reflexivity.
  - vm_compute. reflexivity.
  - exists b. exact H.
  - exfalso. cbn in H. lia.
Defined.

Lemma supplied_alpha_never_changes_witness :
  alpha (fst (run_all Sample.exp_rat Sample.fit_any Sample.decision_origin
                Sample.fit_const Sample.predict_const Sample.proba_const
                [OpRepr; OpPredict; OpDetermineTrainset]
                (manual_fixed, sample_heap)))
  = Val (Fin (8 # 10)).
Proof.
  apply (supplied_alpha_never_changes Sample.exp_rat Sample.fit_any
           Sample.decision_origin Sample.fit_const Sample.predict_const
           Sample.proba_const (Fin (8 # 10))
           [OpRepr; OpPredict; OpDetermineTrainset] (manual_fixed, sample_heap)).
  reflexivity.
Defined.


Lemma repr_counts_witness :
  exists ws a b,
    Sample.score manual_auto = Ok ws /\
    alpha manual_auto_after = Val a /\ beta manual_auto_after = Val b /\
    rll_num manual_auto_summary
      = Z.of_nat (count (fun x => np_le (Fin x) b) (skipn 1 ws)) /\
    ptt_num manual_auto_summary
      = Z.of_nat (count (fun x => np_ge (Fin x) a) (skipn 1 ws)) /\
    (rll_num manual_auto_summary + ptt_num manual_auto_summary <= 3)%Z.
Proof.
  destruct (repr_counts Sample.exp_rat Sample.fit_any Sample.decision_origin
              manual_auto manual_auto_after manual_auto_summary)
    as (ws & a & b & Hs & Ha & Hb & Hr & Hp & Hle & _).
  - vm_compute. reflexivity.
  - exists ws, a, b. auto 10.
Defined.

Lemma repr_shares_witness :
  exists r p,
    rll_share manual_auto_summary = Fin r /\
    ptt_share manual_auto_summary = Fin p /\
    0 <= r /\ 0 <= p /\ r + p <= 1.
Proof.
  destruct (repr_shares Sample.exp_rat Sample.fit_any Sample.decision_origin
              manual_auto manual_auto_after manual_auto_summary)
    as [_ H].
  - vm_compute. reflexivity.
  - destruct H as (r & p & Hr & Hp & _ & _ & H0 & H1 & H2); [discriminate|].
    exists r, p. auto.
Defined.

Lemma init_splits_scaled_rows_witness :
  exists scaled,
    Sample.scaler_id ([[3]] ++ [[0]; [1]; [2]]) = Ok scaled /\
    anomalies manual_auto ++ unlabel manual_auto = scaled /\
    Sample.centers_const [[3]] 0 (anomalies manual_auto) (n_clusters manual_auto)
      (cluster_algo manual_auto) = Ok (centers manual_auto, cluster_score manual_auto).
Proof.
  destruct (init_splits_scaled_rows Sample.scaler_id (Sample.centers_const [[3]] 0)
              manual_args manual_auto)
    as (d & ra & ru & scaled & Ha & Hu & Hf & Hs & _ & _ & Hc & _).
  - reflexivity.
  - injection Ha as <- <-. injection Hu as <-.
    exists scaled. auto.
Defined.

Lemma trainset_within_inputs_witness :
  (length (fst (fst manual_auto_trainset))
   <= length (anomalies manual_auto) + length (unlabel manual_auto))%nat /\
  In 1%Z (snd (fst manual_auto_trainset)).
Proof.
  destruct (trainset_within_inputs Sample.exp_rat Sample.fit_any
              Sample.decision_origin manual_auto manual_auto_after
              (fst (fst manual_auto_trainset)) (snd (fst manual_auto_trainset))
              (snd manual_auto_trainset))
    as (Hlen & _ & _ & H1).
  - vm_compute. reflexivity.
  - split; [exact Hlen|]. apply H1. discriminate.
Defined.

Lemma returned_thresholds_positive_witness :
  exists a b,
    alpha manual_auto_after = Val a /\ beta manual_auto_after = Val (Fin b) /\
    np_lt (Fin 0) a = true /\ 0 <= b.
Proof.
  apply (returned_thresholds_positive Sample.exp_rat Sample.fit_any
           Sample.decision_origin manual_auto manual_auto_after
           manual_auto_trainset).
  - cbn. lra.
  - cbn. lra.
  - vm_compute. reflexivity.
Defined.

Lemma identical_rows_never_train_witness :
  snd (Sample.dt (Sample.all_equal Auto)) = Raise AssertionError.
Proof.
  destruct (identical_rows_never_train Sample.exp_rat Sample.fit_any
              Sample.decision_origin (Sample.all_equal Auto))
    as [[e [He _]]|[H|H]].
  - intros x x' Hx Hx'. cbn in Hx, Hx'.
    destruct Hx as [<-|[<-|[<-|[]]]]; destruct Hx' as [<-|[<-|[<-|[]]]]; reflexivity.
  - reflexivity.
  - vm_compute in He. discriminate He.
  - exact H.
  - vm_compute in H. discriminate H.
Defined.
